(** * mne-bids-pipeline: step execution, configuration loading and unit
    enumeration

    Shallow embedding of
      - [config.py]            (study settings, directory creation, checks),
      - [04-make_epochs.py]    (the epoching script),
      - [scripts/source/_04_make_forward.py] (the forward-solution step),
    together with a model of the orchestration layer ([failsafe_run],
    [parallel_func], [get_subjects], ...) that the forward step imports from
    a [config] module whose code is not part of the sources at hand.

    Python code that performs I/O or raises is written in a small
    reader/state/error monad: a computation reads the module globals of
    [config], threads a world (file system, clock, trace of library calls)
    and returns a value or a raised exception. *)

From stdpp Require Import gmap strings list fin_maps.
From Stdlib Require Import Ascii ZArith Lia.

(** ** Python exceptions *)

Inductive exn : Type :=
  | ValueError (msg : string)
  | AssertionError
  | KeyError (key : string)
  | IndexError (msg : string)
  | FileNotFoundError (path : string)
  | FileExistsError (path : string)
  | IsADirectoryError (path : string)
  | OSError (path : string)
  | RuntimeError (msg : string).

#[global] Instance exn_eq_dec : EqDecision exn.
Proof. solve_decision. Defined.

Inductive res (A : Type) : Type :=
  | Ok (a : A)
  | Raise (e : exn).
Arguments Ok {A} a.
Arguments Raise {A} e.

Definition is_ok {A} (r : res A) : bool :=
  match r with Ok _ => true | Raise _ => false end.

(** ** The world: file system, clock and trace of library calls *)

(** A file carries its modification time and whether its content can be
    parsed by the reader it is meant for ([sane]); the numerical content is
    opaque.  Paths are compared as written: the model does not resolve
    [.], [..], doubled separators or symbolic links. *)
Inductive node : Type :=
  | Dir
  | File (mtime : nat) (sane : bool).

#[global] Instance node_eq_dec : EqDecision node.
Proof. solve_decision. Defined.

(** Calls into [mne], [mne_bids], [os] and the logger that the scripts make;
    the trace records them in program order. *)
Inductive event : Type :=
  | EvMkdir (path : string)
  | EvRead (what path : string)
  | EvWrite (what path : string)
  | EvCompute (what : string) (args : list string)
  | EvLog (msg : string) (subject session : option string)
  | EvPrint (msg : string)
  | EvPlot (what : string).

#[global] Instance event_eq_dec : EqDecision event.
Proof. solve_decision. Defined.

Record World : Type := mkWorld {
  fs : gmap string node;
  clock : nat;
  trace : list event
}.

Definition emit (ev : event) (w : World) : World :=
  mkWorld (fs w) (clock w) (trace w ++ [ev]).

(** ** The monad of script code *)

Definition M (G A : Type) : Type := G -> World -> res A * World.

Definition ret {G A} (a : A) : M G A := fun _ w => (Ok a, w).

Definition bind {G A B} (m : M G A) (k : A -> M G B) : M G B :=
  fun g w =>
    match m g w with
    | (Ok a, w') => k a g w'
    | (Raise e, w') => (Raise e, w')
    end.

Definition raise {G A} (e : exn) : M G A := fun _ w => (Raise e, w).

(** Read access to the globals of the [config] module. *)
Definition ask {G} : M G G := fun g w => (Ok g, w).
Definition asks {G A} (f : G -> A) : M G A := fun g w => (Ok (f g), w).

Definition log_event {G} (ev : event) : M G unit :=
  fun _ w => (Ok tt, emit ev w).

(** [try: ... except Exception as e: ...] *)
Definition try_except {G A} (m : M G A) (handler : exn -> M G A) : M G A :=
  fun g w =>
    match m g w with
    | (Ok a, w') => (Ok a, w')
    | (Raise e, w') => handler e g w'
    end.

(** A computation that does not read the module globals. *)
Definition ignores_globals {G A} (m : M G A) : Prop :=
  ∀ g1 g2 w, m g1 w = m g2 w.

Declare Scope py_scope.
Delimit Scope py_scope with py.
Notation "x <- m ;; k" := (bind m (fun x => k))
  (at level 100, m at next level, right associativity) : py_scope.
Notation "m ;;; k" := (bind m (fun _ => k))
  (at level 100, right associativity) : py_scope.
Local Open Scope py_scope.

(** [for x in xs: body x], with the loop state [acc] made explicit. *)
Fixpoint for_each {G A S} (xs : list A) (body : S -> A -> M G S) (acc : S)
  : M G S :=
  match xs with
  | [] => ret acc
  | x :: xs' => acc' <- body acc x ;; for_each xs' body acc'
  end.

(** [[f x for x in xs]], evaluated left to right; the first exception ends
    the comprehension. *)
Fixpoint map_M {G A B} (f : A -> M G B) (xs : list A) : M G (list B) :=
  match xs with
  | [] => ret []
  | x :: xs' => y <- f x ;; ys <- map_M f xs' ;; ret (y :: ys)
  end.

(** ** File system primitives and [os.path] *)

Module Os.

(** [posixpath.join(a, b)] *)
Definition join (a b : string) : string :=
  if String.prefix "/" b then b
  else if bool_decide (a = "") then b
  else if String.prefix "/" (String.rev a) then a +:+ b
  else a +:+ "/" +:+ b.

(** [posixpath.splitext(p)], read from the end of the path.
    [has_name r] scans the characters before the last dot, backwards: the
    dot starts an extension only if the file name has a character other
    than a dot before it. *)
Fixpoint has_name (r : string) : bool :=
  match r with
  | EmptyString => false
  | String c r' =>
      if bool_decide (c = "/"%char) then false
      else if bool_decide (c = "."%char) then has_name r'
      else true
  end.

Fixpoint split_rev (r ext : string) : option (string * string) :=
  match r with
  | EmptyString => None
  | String c r' =>
      if bool_decide (c = "/"%char) then None
      else if bool_decide (c = "."%char)
           then (if has_name r' then Some (String.rev r', String c ext)
                 else None)
      else split_rev r' (String c ext)
  end.

Definition splitext (p : string) : string * string :=
  match split_rev (String.rev p) "" with
  | Some re => re
  | None => (p, "")
  end.

(** [os.path.isdir(p)] *)
Definition isdir {G} (p : string) : M G bool :=
  fun _ w => (Ok (bool_decide (fs w !! p = Some Dir)), w).

(** [os.mkdir(p)].  [denied] stands for the refusals of the operating
    system that do not depend on the entry itself (missing parent
    directory, permissions). *)
Definition mkdir {G} (denied : string -> bool) (p : string) : M G unit :=
  fun _ w =>
    let w1 := emit (EvMkdir p) w in
    match fs w !! p with
    | Some _ => (Raise (FileExistsError p), w1)
    | None =>
        if denied p then (Raise (OSError p), w1)
        else (Ok tt, mkWorld (<[p := Dir]> (fs w1)) (clock w1) (trace w1))
    end.

(** Opening [p] for reading, as the [mne] readers do: a missing file gives
    [FileNotFoundError], a directory a plain [OSError], a file that is not
    in the expected format a [ValueError]. *)
Definition read_file {G} (what p : string) : M G unit :=
  fun _ w =>
    let w1 := emit (EvRead what p) w in
    match fs w !! p with
    | None => (Raise (FileNotFoundError p), w1)
    | Some Dir => (Raise (OSError p), w1)
    | Some (File _ false) => (Raise (ValueError ("cannot parse " +:+ p)), w1)
    | Some (File _ true) => (Ok tt, w1)
    end.

(** Writing [p]: the file gets the current time as modification time and
    time moves on.  Without [overwrite] any existing path, a directory
    included, is refused with [FileExistsError]; with [overwrite] an
    existing file is replaced and a directory cannot be opened for
    writing. *)
Definition write_file {G} (overwrite : bool) (what p : string) : M G unit :=
  fun _ w =>
    let w1 := emit (EvWrite what p) w in
    let written := mkWorld (<[p := File (clock w) true]> (fs w))
                           (S (clock w)) (trace w1) in
    match fs w !! p with
    | Some Dir =>
        if overwrite then (Raise (IsADirectoryError p), w1)
        else (Raise (FileExistsError p), w1)
    | Some (File _ _) =>
        if overwrite then (Ok tt, written)
        else (Raise (FileExistsError p), w1)
    | None => (Ok tt, written)
    end.

(** [os.path.getmtime(p)], [None] where there is no file. *)
Definition mtime (f : gmap string node) (p : string) : option nat :=
  match f !! p with
  | Some (File t _) => Some t
  | _ => None
  end.

End Os.

(** A computation that only reads and logs: file system and clock stay as
    they are and the trace is extended. *)
Definition quiet {G A} (m : M G A) : Prop :=
  ∀ g w, fs (m g w).2 = fs w ∧ clock (m g w).2 = clock w
         ∧ ∃ evs, trace (m g w).2 = trace w ++ evs.

(** Modification times do not lie in the future. *)
Definition world_wf (w : World) : Prop :=
  ∀ p t, Os.mtime (fs w) p = Some t → t ≤ clock w.

(** [covers w w']: every file that can be read in [w] can be read in [w'],
    and [w'] has no directory where [w] has none. *)
Definition covers (w w' : World) : Prop :=
  (∀ p t, fs w !! p = Some (File t true) →
          ∃ t', fs w' !! p = Some (File t' true))
  ∧ (∀ p, fs w' !! p = Some Dir → fs w !! p = Some Dir).

(** A computation that, having returned in one world, returns the same
    value in every world that covers it. *)
Definition replayable {G A} (m : M G A) : Prop :=
  ∀ g w w' a w1, covers w w' → m g w = (Ok a, w1) →
    ∃ w1', m g w' = (Ok a, w1') ∧ covers w1 w1'.

(** The library calls a computation added to the trace, and whether it did
    any work: a step that is skipped reads, computes and writes nothing. *)
Definition added (w w' : World) : list event :=
  drop (length (trace w)) (trace w').

Definition is_work (ev : event) : bool :=
  match ev with
  | EvRead _ _ | EvWrite _ _ | EvCompute _ _ => true
  | _ => false
  end.

Definition no_work (w w' : World) : bool :=
  forallb (fun ev => negb (is_work ev)) (added w w').

(** ** [config.py]: the study settings *)

Module Config.

(** The module-level assignments of [config.py] that the code below reads.
    The parameters handed unchanged to [mne.Epochs] ([event_id], [tmin],
    [tmax], [baseline], [decim], [reject]) are opaque and kept as one
    description string. *)
Record Settings : Type := mkSettings {
  plot : bool;
  study_path : string;
  study_name : string;
  subjects_list : list string;
  exclude_subjects : list string;
  runs : list string;
  ch_types : list string;
  use_maxwell_filter : bool;
  use_ssp : bool;
  use_ica : bool;
  epoch_params : string;
  N_JOBS : Z
}.

(** [subjects_dir = os.path.join(study_path, 'subjects')] *)
Definition subjects_dir (s : Settings) : string :=
  Os.join (study_path s) "subjects".

(** [meg_dir = os.path.join(study_path, 'MEG')] *)
Definition meg_dir (s : Settings) : string :=
  Os.join (study_path s) "MEG".

(** [base_fname = '{subject}_' + study_name + '{extension}.fif'], applied
    with [.format(subject=..., extension=...)]; [study_name] is taken to
    hold no replacement field of its own. *)
Definition base_fname (s : Settings) (subject extension : string) : string :=
  subject +:+ "_" +:+ study_name s +:+ extension +:+ ".fif".

(** [len(set(ch_types).intersection(('meg', 'grad', 'mag'))) == 0] *)
Definition no_meg_channels (chs : list string) : bool :=
  bool_decide (length
    (filter (fun c => c ∈ remove_dups chs) ["meg"; "grad"; "mag"]) = 0).

Definition msg_maxwell : string :=
  "Cannot use maxwell filter without MEG channels.".
Definition msg_ssp_ica : string := "Cannot use both SSP and ICA.".

Section Load.
(** Refusals of [os.mkdir] by the operating system. *)
Variable denied : string -> bool.

(** [if not os.path.isdir(p): os.mkdir(p)] *)
Definition mkdir_if_missing (p : string) : M Settings unit :=
  d <- Os.isdir p ;;
  if negb d then Os.mkdir denied p else ret tt.

(** Lines 627-631: the two directories are created when missing. *)
Definition make_dirs : M Settings unit :=
  sp <- asks study_path ;;
  mkdir_if_missing sp ;;;
  sd <- asks subjects_dir ;;
  mkdir_if_missing sd.

(** Lines 681-686: the CHECKS block. *)
Definition checks : M Settings unit :=
  s <- ask ;;
  (if use_maxwell_filter s && no_meg_channels (ch_types s)
   then raise (ValueError msg_maxwell) else ret tt) ;;;
  (if use_ssp s && use_ica s
   then raise (ValueError msg_ssp_ica) else ret tt).

(** Executing the module body, i.e. [import config]. *)
Definition load : M Settings unit := make_dirs ;;; checks.
End Load.

(** The settings as they stand in the file. *)
Definition default : Settings :=
  {| plot := false; study_path := "data/"; study_name := "Localizer";
     subjects_list := ["SB01"]; exclude_subjects := []; runs := [""];
     ch_types := ["meg"]; use_maxwell_filter := true; use_ssp := false;
     use_ica := true; epoch_params := "tmin=-0.6,tmax=1.5,decim=1";
     N_JOBS := 1 |}.

End Config.

(** ** [04-make_epochs.py] *)

Module Epochs.
Import Config.

(** [N_JOBS = max(config.N_JOBS // 4, 1)] *)
Definition N_JOBS (s : Settings) : Z := Z.max (Config.N_JOBS s / 4) 1.

(** The [meg] argument of [mne.pick_types]: [False], [True], ['grad'] or
    ['mag']. *)
Inductive meg_pick : Type := MegFalse | MegTrue | MegGrad | MegMag.

Definition meg_pick_str (m : meg_pick) : string :=
  match m with
  | MegFalse => "False" | MegTrue => "True"
  | MegGrad => "grad" | MegMag => "mag"
  end.

(** Lines 63-69. *)
Definition pick_meg (chs : list string) : meg_pick :=
  if bool_decide ("meg" ∈ chs) then MegTrue
  else if bool_decide ("grad" ∈ chs) then MegGrad
  else if bool_decide ("mag" ∈ chs) then MegMag
  else MegFalse.

(** Lines 36-53: one pass of the loop over [config.runs]; the loop state is
    the pair [(raw_list, events_list)], each raw and events object being known
    by the file it was read from. *)
Definition load_run (subject meg_subject_dir : string)
    (acc : list string * list string) (run : string)
  : M Settings (list string * list string) :=
  mf <- asks use_maxwell_filter ;;
  let extension := if mf : bool then run +:+ "_sss_raw" else run +:+ "_filt_raw" in
  bf <- asks base_fname ;;
  let raw_fname_in := Os.join meg_subject_dir (bf subject extension) in
  let eve_fname := (Os.splitext raw_fname_in).1 +:+ "-eve.fif" in
  log_event (EvPrint ("Input:  " +:+ raw_fname_in +:+ " " +:+ eve_fname)) ;;;
  Os.read_file "raw" raw_fname_in ;;;
  Os.read_file "events" eve_fname ;;;
  ret (acc.1 ++ [raw_fname_in], acc.2 ++ [eve_fname]).

(** [mne.concatenate_raws(raw_list, events_list=events_list)]: with an
    events list it zips the first and last samples of the recordings and
    unpacks the result into two names, which fails on empty lists. *)
Definition concatenate_raws (raw_list events_list : list string)
  : M Settings unit :=
  match raw_list with
  | [] => raise (ValueError "not enough values to unpack (expected 2, got 0)")
  | _ => log_event (EvCompute "concatenate_raws" (raw_list ++ events_list))
  end.

(** The output file of the step for [subject] (lines 89-91). *)
Definition epochs_fname (s : Settings) (subject : string) : string :=
  Os.join (Os.join (meg_dir s) subject) (base_fname s subject "-epo").

(** The units of the batch (line 103): the subjects of
    [config.subjects_list]. *)
Definition units : M Settings (list string) := asks subjects_list.

(** [run_epochs(subject)], lines 28-86: the recordings are read,
    concatenated and epoched.  The computations of [mne] on the data read
    ([concatenate_raws] on at least one recording, [set_eeg_reference],
    [pick_types], [Epochs]) are recorded as events; whether one of them
    rejects the content of the recordings is not modelled. *)
Definition load_and_epoch (subject : string) : M Settings unit :=
  log_event (EvPrint ("Processing subject: " +:+ subject)) ;;;
  md <- asks meg_dir ;;
  let meg_subject_dir := Os.join md subject in
  log_event (EvPrint "  Loading raw data") ;;;
  rs <- asks runs ;;
  lists <- for_each rs (load_run subject meg_subject_dir) ([], []) ;;
  log_event (EvPrint "  Concatenating runs") ;;;
  concatenate_raws lists.1 lists.2 ;;;
  chs <- asks ch_types ;;
  (if bool_decide ("eeg" ∈ chs)
   then log_event (EvCompute "set_eeg_reference" ["projection=True"])
   else ret tt) ;;;
  let meg := pick_meg chs in
  let eeg := bool_decide ("eeg" ∈ chs) in
  log_event (EvCompute "pick_types"
               [meg_pick_str meg; if eeg then "True" else "False"]) ;;;
  log_event (EvPrint "  Epoching") ;;;
  ep <- asks epoch_params ;;
  log_event (EvCompute "Epochs" [ep]).

Section Save.
(** [epochs.save(fname)] is called without an [overwrite] argument: whether
    an existing epochs file is replaced or refused is the default of the
    installed MNE release (older releases replace the file, newer ones
    refuse unless [overwrite=True] is passed). *)
Variable save_overwrite : bool.

(** [run_epochs(subject)], lines 88-98: the epochs are written and, if
    asked for, plotted. *)
Definition save_and_plot (subject : string) : M Settings unit :=
  log_event (EvPrint "  Writing epochs to disk") ;;;
  fname <- asks (fun s => epochs_fname s subject) ;;
  log_event (EvPrint ("Output:  " +:+ fname)) ;;;
  Os.write_file save_overwrite "epochs" fname ;;;
  pl <- asks plot ;;
  (if pl : bool
   then log_event (EvPlot "epochs.plot") ;;;
        log_event (EvPlot "epochs.plot_image")
   else ret tt).

(** [run_epochs(subject)] *)
Definition run_epochs (subject : string) : M Settings unit :=
  load_and_epoch subject ;;; save_and_plot subject.

(** Lines 102-103 with one job, where [mne.parallel.parallel_func] hands
    back the builtin [list] and the function itself: the subjects are
    processed one after the other. *)
Definition batch : M Settings (list unit) :=
  us <- units ;; map_M run_epochs us.

(** The whole script: [import config], then the batch. *)
Definition script (denied : string -> bool) : M Settings (list unit) :=
  Config.load denied ;;; batch.

End Save.

End Epochs.

(** ** [mne_bids.BIDSPath] and [pathlib.Path] *)

Module Bids.

(** [pathlib]'s [p / s], on paths written as strings. *)
Definition div (p s : string) : string :=
  if bool_decide (s = "") then p else Os.join p s.

Record BIDSPath : Type := mkBIDSPath {
  subject : option string;
  session : option string;
  task : option string;
  acquisition : option string;
  run : option string;
  processing : option string;
  recording : option string;
  space : option string;
  split : option string;
  suffix : option string;
  extension : option string;
  datatype : option string;
  root : option string;
  check : bool
}.

#[global] Instance BIDSPath_eq_dec : EqDecision BIDSPath.
Proof. solve_decision. Defined.

(** The keyword arguments [BIDSPath.update] accepts. *)
Inductive entity : Type :=
  | Esubject | Esession | Etask | Eacquisition | Erun | Eprocessing
  | Erecording | Espace | Esplit | Esuffix | Eextension | Edatatype | Eroot.

#[global] Instance entity_eq_dec : EqDecision entity.
Proof. solve_decision. Defined.

Definition set_entity (b : BIDSPath) (kv : entity * option string) : BIDSPath :=
  let v := kv.2 in
  match kv.1 with
  | Esubject => mkBIDSPath v (session b) (task b) (acquisition b) (run b)
      (processing b) (recording b) (space b) (split b) (suffix b)
      (extension b) (datatype b) (root b) (check b)
  | Esession => mkBIDSPath (subject b) v (task b) (acquisition b) (run b)
      (processing b) (recording b) (space b) (split b) (suffix b)
      (extension b) (datatype b) (root b) (check b)
  | Etask => mkBIDSPath (subject b) (session b) v (acquisition b) (run b)
      (processing b) (recording b) (space b) (split b) (suffix b)
      (extension b) (datatype b) (root b) (check b)
  | Eacquisition => mkBIDSPath (subject b) (session b) (task b) v (run b)
      (processing b) (recording b) (space b) (split b) (suffix b)
      (extension b) (datatype b) (root b) (check b)
  | Erun => mkBIDSPath (subject b) (session b) (task b) (acquisition b) v
      (processing b) (recording b) (space b) (split b) (suffix b)
      (extension b) (datatype b) (root b) (check b)
  | Eprocessing => mkBIDSPath (subject b) (session b) (task b)
      (acquisition b) (run b) v (recording b) (space b) (split b) (suffix b)
      (extension b) (datatype b) (root b) (check b)
  | Erecording => mkBIDSPath (subject b) (session b) (task b)
      (acquisition b) (run b) (processing b) v (space b) (split b) (suffix b)
      (extension b) (datatype b) (root b) (check b)
  | Espace => mkBIDSPath (subject b) (session b) (task b) (acquisition b)
      (run b) (processing b) (recording b) v (split b) (suffix b)
      (extension b) (datatype b) (root b) (check b)
  | Esplit => mkBIDSPath (subject b) (session b) (task b) (acquisition b)
      (run b) (processing b) (recording b) (space b) v (suffix b)
      (extension b) (datatype b) (root b) (check b)
  | Esuffix => mkBIDSPath (subject b) (session b) (task b) (acquisition b)
      (run b) (processing b) (recording b) (space b) (split b) v
      (extension b) (datatype b) (root b) (check b)
  | Eextension => mkBIDSPath (subject b) (session b) (task b)
      (acquisition b) (run b) (processing b) (recording b) (space b)
      (split b) (suffix b) v (datatype b) (root b) (check b)
  | Edatatype => mkBIDSPath (subject b) (session b) (task b)
      (acquisition b) (run b) (processing b) (recording b) (space b)
      (split b) (suffix b) (extension b) v (root b) (check b)
  | Eroot => mkBIDSPath (subject b) (session b) (task b) (acquisition b)
      (run b) (processing b) (recording b) (space b) (split b) (suffix b)
      (extension b) (datatype b) v (check b)
  end.

(** [bids_path.copy().update] with keyword arguments [kwargs]: a new value, the receiver is left
    as it was. *)
Definition update (b : BIDSPath) (kwargs : list (entity * option string))
  : BIDSPath :=
  foldl set_entity b kwargs.

(** [key-value] for an entity that is set. *)
Definition ent (key : string) (v : option string) : option string :=
  (fun x => key +:+ "-" +:+ x) <$> v.

Definition opt_str (v : option string) : string := default "" v.

(** [bids_path.basename]: the entities that are set, then the suffix with
    the extension, joined by underscores, as in
    [sub-01_ses-02_task-rest_ave.fif]; the extension is left out where no
    suffix is set. *)
Definition basename (b : BIDSPath) : string :=
  String.concat "_"
    (omap id [ent "sub" (subject b); ent "ses" (session b);
              ent "task" (task b); ent "acq" (acquisition b);
              ent "run" (run b); ent "proc" (processing b);
              ent "space" (space b); ent "recording" (recording b);
              ent "split" (split b);
              (fun x => x +:+ opt_str (extension b)) <$> suffix b]).

Definition opt_dir (key : string) (v : option string) : string :=
  match v with Some x => key +:+ x | None => "" end.

(** [bids_path.fpath] for a path whose suffix and extension are set (no
    search for a matching file takes place then):
    [root/sub-../ses-../datatype/basename]. *)
Definition fpath (b : BIDSPath) : string :=
  div (div (div (div (opt_str (root b)) (opt_dir "sub-" (subject b)))
                (opt_dir "ses-" (session b)))
           (opt_str (datatype b)))
      (basename b).

(** What [in_files] and [out_files] hold: a [BIDSPath] or a [pathlib.Path]. *)
Inductive Loc : Type :=
  | LBids (b : BIDSPath)
  | LPath (p : string).

#[global] Instance Loc_eq_dec : EqDecision Loc.
Proof. solve_decision. Defined.

(** [os.fspath(loc)] *)
Definition fspath (l : Loc) : string :=
  match l with
  | LBids b => fpath b
  | LPath p => p
  end.

End Bids.

(** ** The orchestration layer

    [failsafe_run] and [parallel_func] are imported by the forward step from
    a [config] module that is not part of the sources at hand; the
    definitions of this module follow the specification of the
    orchestration framework. *)

Module Orchestration.
Import Bids.

(** Modelled from the spec: the data model of section 3 (status of an
    outcome, error kinds, freshness verdict, work unit, outcome record);
    none of it is declared in the sources. *)
Inductive Status : Type := SUCCESS | SKIPPED | FAILED.
Inductive ErrorKind : Type :=
  | MissingInputError | ComputationError | OutputWriteError | Unclassified.
Inductive FreshnessVerdict : Type := STALE | CURRENT.

#[global] Instance Status_eq_dec : EqDecision Status.
Proof. solve_decision. Defined.
#[global] Instance ErrorKind_eq_dec : EqDecision ErrorKind.
Proof. solve_decision. Defined.
#[global] Instance FreshnessVerdict_eq_dec : EqDecision FreshnessVerdict.
Proof. solve_decision. Defined.

Record WorkUnit : Type := mkUnit {
  unit_subject : string;
  unit_session : option string
}.

#[global] Instance WorkUnit_eq_dec : EqDecision WorkUnit.
Proof. solve_decision. Defined.

Record OutcomeRecord : Type := mkOutcome {
  unit : WorkUnit;
  step : string;
  status : Status;
  error : option (ErrorKind * exn);
  produced : list (string * Loc)
}.

(** Modelled from the spec: the error kinds of the fault-isolating runner
    (section 4.4 and the taxonomy of section 7); the specification names the
    kinds, the assignment of Python exceptions to them is this model's. *)
Definition classify (e : exn) : ErrorKind :=
  match e with
  | FileNotFoundError _ => MissingInputError
  | ValueError _ | AssertionError | RuntimeError _ | IndexError _ =>
      ComputationError
  | FileExistsError _ | IsADirectoryError _ | OSError _ => OutputWriteError
  | KeyError _ => Unclassified
  end.

(** Modelled from the spec: an output of modification time [t_out] is not
    older than [input], a declared input that need not exist (section
    4.3). *)
Definition not_older (f : gmap string node) (t_out : nat) (input : string)
  : bool :=
  match Os.mtime f input with
  | Some t_in => t_in <=? t_out
  | None => true
  end.

(** Modelled from the spec: a declared output exists and is not older than
    any declared input that exists (section 4.3). *)
Definition output_current (f : gmap string node) (inputs : list string)
    (output : string) : bool :=
  match Os.mtime f output with
  | Some t_out => forallb (not_older f t_out) inputs
  | None => false
  end.

(** Modelled from the spec: the cache/freshness decision [decide(inputs,
    outputs_expected)] of section 4.3, which the sources leave to
    [failsafe_run]: CURRENT iff every declared output exists and is not
    older than every declared input that exists, STALE otherwise. *)
Definition decide (f : gmap string node) (inputs outputs_expected : list string)
  : FreshnessVerdict :=
  if forallb (output_current f inputs) outputs_expected then CURRENT
  else STALE.

(** The storage locations a mapping of logical names declares. *)
Definition locations (files : gmap string Loc) : list string :=
  fspath <$> (map_to_list files).*2.

Section Runner.
Context {G Cfg : Type}.

(** Modelled from the spec: the fault-isolating runner [run(step_body,
    inputs, cfg)] of section 4.4.  An error raised by the step body is
    caught, classified, logged with the identity of the work unit and turned
    into a FAILED record; a return gives a SUCCESS record with the produced
    artifacts. *)
Definition run (step_name : string) (u : WorkUnit)
    (step_body : gmap string Loc -> Cfg -> M G (gmap string Loc))
    (inputs : gmap string Loc) (cfg : Cfg) : M G OutcomeRecord :=
  try_except
    (out_files <- step_body inputs cfg ;;
     ret (mkOutcome u step_name SUCCESS None (map_to_list out_files)))
    (fun e =>
       log_event (EvLog "step failed" (Some (unit_subject u))
                        (unit_session u)) ;;;
       ret (mkOutcome u step_name FAILED (Some (classify e, e)) [])).

(** Modelled from the spec: the decorator [failsafe_run(script_path=,
    get_input_fnames=)], missing from the sources, as the per-unit pipeline
    of section 2: input resolution, cache decision, then either a SKIPPED
    record or the fault-isolating runner.  [get_output_fnames] gives the
    declared outputs the decision compares against. *)
Definition failsafe_run (script_path : string)
    (get_input_fnames : Cfg -> string -> option string -> M G (gmap string Loc))
    (get_output_fnames : Cfg -> string -> option string -> gmap string Loc)
    (func : Cfg -> string -> option string -> gmap string Loc
            -> M G (gmap string Loc))
    (cfg : Cfg) (subject : string) (session : option string)
  : M G OutcomeRecord :=
  let u := mkUnit subject session in
  in_files <- get_input_fnames cfg subject session ;;
  verdict <- (fun _ w =>
                (Ok (decide (fs w) (locations in_files)
                       (locations (get_output_fnames cfg subject session))),
                 w)) ;;
  match verdict with
  | CURRENT => ret (mkOutcome u script_path SKIPPED None [])
  | STALE =>
      run script_path u (fun inputs c => func c subject session inputs)
          in_files cfg
  end.

(** Modelled from the spec: [parallel_func] with the SEQUENTIAL policy of
    section 4.6; the records come back in the order of the units. *)
Definition dispatch {U R} (per_unit_fn : U -> M G R) (units : list U)
  : M G (list R) :=
  map_M per_unit_fn units.

End Runner.

End Orchestration.

(** ** The [config] module the forward step imports

    [_04_make_forward.py] reads these names of [config].  The getters
    ([get_task()], [get_runs(subject=...)], ...) are defined in a [config]
    that is not part of the sources at hand; each stands here for the value
    it returns. *)

Module PipelineConfig.
Import Bids.

Record Globals : Type := mkGlobals {
  get_task : option string;
  get_runs : option string -> list (option string);
  get_datatype : option string;
  acq : option string;
  rec : option string;
  space : option string;
  mindist : Z;
  spacing : string;
  use_template_mri : option string;
  adjust_coreg : bool;
  source_info_path_update : list (entity * option string);
  ch_types : list string;
  get_fs_subject : option string -> string;
  get_fs_subjects_dir : string;
  get_deriv_root : string;
  get_bids_root : string;
  mri_t1_path_generator : option (BIDSPath -> BIDSPath);
  mri_landmarks_kind : option (BIDSPath -> option string);
  run_source_estimation : bool;
  subjects : list string;
  exclude_subjects : list string;
  get_sessions : list (option string)
}.

(** Modelled from the spec: [config.get_subjects] is missing from the
    sources; following the unit enumerator of the specification it returns
    the configured subjects without the explicitly excluded ones, in roster
    order. *)
Definition get_subjects (g : Globals) : list string :=
  filter (fun s => s ∉ exclude_subjects g) (subjects g).

End PipelineConfig.

(** ** [scripts/source/_04_make_forward.py] *)

Module Forward.
Import Bids.

(** The [SimpleNamespace] built by [get_config]. *)
Record Cfg : Type := mkCfg {
  task : option string;
  runs : list (option string);
  datatype : option string;
  acq : option string;
  rec : option string;
  space : option string;
  mindist : Z;
  spacing : string;
  use_template_mri : option string;
  adjust_coreg : bool;
  source_info_path_update : list (entity * option string);
  ch_types : list string;
  fs_subject : string;
  fs_subjects_dir : string;
  deriv_root : string;
  bids_root : string
}.

#[global] Instance Cfg_eq_dec : EqDecision Cfg.
Proof. solve_decision. Defined.

Abbreviation Globals := PipelineConfig.Globals.

(** [get_config(subject, session)] *)
Definition get_config (subject session : option string) : M Globals Cfg :=
  g <- ask ;;
  ret {| task := PipelineConfig.get_task g;
         runs := PipelineConfig.get_runs g subject;
         datatype := PipelineConfig.get_datatype g;
         acq := PipelineConfig.acq g;
         rec := PipelineConfig.rec g;
         space := PipelineConfig.space g;
         mindist := PipelineConfig.mindist g;
         spacing := PipelineConfig.spacing g;
         use_template_mri := PipelineConfig.use_template_mri g;
         adjust_coreg := PipelineConfig.adjust_coreg g;
         source_info_path_update := PipelineConfig.source_info_path_update g;
         ch_types := PipelineConfig.ch_types g;
         fs_subject := PipelineConfig.get_fs_subject g subject;
         fs_subjects_dir := PipelineConfig.get_fs_subjects_dir g;
         deriv_root := PipelineConfig.get_deriv_root g;
         bids_root := PipelineConfig.get_bids_root g |}.

(** The head-MRI transformation handed to [mne.make_forward_solution]:
    the name of a trans file, the result of a fitted coregistration, or what
    [mne_bids.get_head_mri_trans] computed from the sidecar files. *)
Inductive Trans : Type :=
  | TransFile (p : string)
  | TransCoreg (fs_subject fs_subjects_dir : string)
  | TransHeadMri (bids_path : BIDSPath) (t1_bids_path : option BIDSPath)
                 (fs_subject fs_subjects_dir : string) (kind : option string).

#[global] Instance Trans_eq_dec : EqDecision Trans.
Proof. solve_decision. Defined.

(** [mne.Info] after [read_info] and [pick_info]: known by its file and the
    channel selection. *)
Record Info : Type := mkInfo {
  info_file : string;
  pick_meg : bool;
  pick_eeg : bool
}.

Definition msg_template : string :=
  "Adjusting the coregistration is mandatory when using a template MRI different from fsaverage".

(** [_prepare_trans_template(cfg, info)] *)
Definition _prepare_trans_template (cfg : Cfg) (info : Info) : M Globals Trans :=
  match use_template_mri cfg with
  | None => raise AssertionError
  | Some t =>
      if negb (bool_decide (t = fs_subject cfg)) then raise AssertionError
      else if negb (bool_decide (fs_subject cfg = "fsaverage"))
              && negb (adjust_coreg cfg)
      then raise (ValueError msg_template)
      else if bool_decide (fs_subject cfg = "fsaverage")
              && negb (adjust_coreg cfg)
      then ret (TransFile
                  (div (div (div (fs_subjects_dir cfg) (fs_subject cfg)) "bem")
                       (fs_subject cfg +:+ "-trans.fif")))
      else
        log_event (EvCompute "Coregistration"
                     [info_file info; fs_subject cfg; fs_subjects_dir cfg;
                      "fiducials=estimated"]) ;;;
        log_event (EvCompute "fit_fiducials" []) ;;;
        ret (TransCoreg (fs_subject cfg) (fs_subjects_dir cfg))
  end.

(** [BIDSPath(subject=..., session=..., root=...)], the other entities
    unset. *)
Definition bids_sub_ses (subject session root : option string) : BIDSPath :=
  mkBIDSPath subject session None None None None None None None None None
             None root true.

(** [_prepare_trans(cfg, bids_path)] *)
Definition _prepare_trans (cfg : Cfg) (bids_path : BIDSPath) : M Globals Trans :=
  let subject := Bids.subject bids_path in
  let session := Bids.session bids_path in
  gen <- asks PipelineConfig.mri_t1_path_generator ;;
  let t1_bids_path :=
    match gen with
    | None => None
    | Some f =>
        let t1 := f (bids_sub_ses subject session (Some (bids_root cfg))) in
        let t1 := if bool_decide (Bids.suffix t1 = None)
                  then update t1 [(Esuffix, Some "T1w")] else t1 in
        let t1 := if bool_decide (Bids.datatype t1 = None)
                  then update t1 [(Edatatype, Some "anat")] else t1 in
        Some t1
    end in
  lk <- asks PipelineConfig.mri_landmarks_kind ;;
  let landmarks_kind :=
    match lk with
    | None => None
    | Some f => f (bids_sub_ses subject session None)
    end in
  log_event (EvLog "Estimating head <-> MRI transform" subject session) ;;;
  match runs cfg with
  | [] => raise (IndexError "list index out of range")
  | run0 :: _ =>
      let bp := update bids_path
                  [(Erun, run0); (Eroot, Some (bids_root cfg));
                   (Eextension, None)] in
      log_event (EvCompute "get_head_mri_trans"
                   [fpath bp; from_option fpath "None" t1_bids_path;
                    fs_subject cfg; fs_subjects_dir cfg;
                    default "None" landmarks_kind]) ;;;
      ret (TransHeadMri bp t1_bids_path (fs_subject cfg)
                        (fs_subjects_dir cfg) landmarks_kind)
  end.

(** The [BIDSPath] both [get_input_fnames_forward] and [run_forward] start
    from, once built: [mne_bids] refuses entity values that contain a
    dash, an underscore or a slash with a [ValueError] when the path is
    built, which the record does not show. *)
Definition step_bids_path (cfg : Cfg) (subject : string)
    (session : option string) : BIDSPath :=
  {| Bids.subject := Some subject; Bids.session := session;
     Bids.task := task cfg; Bids.acquisition := acq cfg; Bids.run := None;
     Bids.processing := None; Bids.recording := rec cfg;
     Bids.space := space cfg; Bids.split := None; Bids.suffix := None;
     Bids.extension := Some ".fif"; Bids.datatype := datatype cfg;
     Bids.root := Some (deriv_root cfg); Bids.check := false |}.

(** [in_files.pop(key)] *)
Definition pop {G} (key : string) (d : gmap string Loc)
  : M G (Loc * gmap string Loc) :=
  match d !! key with
  | Some v => ret (v, delete key d)
  | None => raise (KeyError key)
  end.

(** [mne.make_forward_solution(info, trans=, src=, bem=, mindist=)]: the
    files named by [trans], [src] and [bem] are read. *)
Definition make_forward_solution {G} (info : Info) (trans : Trans)
    (src bem : Loc) (mindist : Z) : M G unit :=
  (match trans with
   | TransFile p => Os.read_file "trans" p
   | _ => ret tt
   end) ;;;
  Os.read_file "src" (fspath src) ;;;
  Os.read_file "bem" (fspath bem) ;;;
  log_event (EvCompute "make_forward_solution" [info_file info]).

(** The artifacts [run_forward] writes and returns (lines 149-151). *)
Definition out_files_forward (cfg : Cfg) (subject : string)
    (session : option string) : gmap string Loc :=
  let bids_path := step_bids_path cfg subject session in
  <["forward" := LBids (update bids_path [(Esuffix, Some "fwd")])]>
    (<["trans" := LBids (update bids_path [(Esuffix, Some "trans")])]> ∅).

Section Helpers.
(** Helpers imported from [config] whose code is missing from the sources:
    [_get_bem_conductivity(cfg)] returns a conductivity and a file-name tag,
    [_meg_in_ch_types(ch_types)] a boolean. *)
Variable _get_bem_conductivity : Cfg -> option (list string) * string.
Variable _meg_in_ch_types : list string -> bool.

(** [get_input_fnames_forward(cfg=, subject=, session=)] *)
Definition get_input_fnames_forward (cfg : Cfg) (subject : string)
    (session : option string) : M Globals (gmap string Loc) :=
  let bids_path := step_bids_path cfg subject session in
  let in_files : gmap string Loc := ∅ in
  let in_files :=
    <["info" := LBids (update bids_path (source_info_path_update cfg))]>
      in_files in
  let bem_path := div (div (fs_subjects_dir cfg) (fs_subject cfg)) "bem" in
  let tag := (_get_bem_conductivity cfg).2 in
  let in_files :=
    <["bem" := LPath (div bem_path
                 (fs_subject cfg +:+ "-" +:+ tag +:+ "-bem-sol.fif"))]>
      in_files in
  let in_files :=
    <["src" := LPath (div bem_path
                 (fs_subject cfg +:+ "-" +:+ spacing cfg +:+ "-src.fif"))]>
      in_files in
  ret in_files.

(** The function [run_forward] as written, before the decorator is
    applied. *)
Definition run_forward (cfg : Cfg) (subject : string)
    (session : option string) (in_files : gmap string Loc)
  : M Globals (gmap string Loc) :=
  let bids_path := step_bids_path cfg subject session in
  p1 <- pop "info" in_files ;;
  Os.read_file "info" (fspath p1.1) ;;;
  let info := mkInfo (fspath p1.1) (_meg_in_ch_types (ch_types cfg))
                     (bool_decide ("eeg" ∈ ch_types cfg)) in
  p2 <- pop "bem" p1.2 ;;
  let bem := p2.1 in
  p3 <- pop "src" p2.2 ;;
  let src := p3.1 in
  trans <- (match use_template_mri cfg with
            | Some _ => _prepare_trans_template cfg info
            | None => _prepare_trans cfg bids_path
            end) ;;
  log_event (EvLog "Calculating forward solution" (Some subject) session) ;;;
  make_forward_solution info trans src bem (mindist cfg) ;;;
  let out_files := out_files_forward cfg subject session in
  Os.write_file true "trans"
    (fpath (update bids_path [(Esuffix, Some "trans")])) ;;;
  Os.write_file true "forward"
    (fpath (update bids_path [(Esuffix, Some "fwd")])) ;;;
  ret out_files.

(** The name [run_forward] after decoration (lines 105-107).  The declared
    outputs are the artifacts the function returns. *)
Definition run_forward_failsafe
  : Cfg -> string -> option string -> M Globals Orchestration.OutcomeRecord :=
  Orchestration.failsafe_run "_04_make_forward.py"
    get_input_fnames_forward out_files_forward run_forward.

(** [itertools.product(config.get_subjects(), config.get_sessions())] *)
Definition units : M Globals (list (string * option string)) :=
  g <- ask ;;
  ret (list_prod (PipelineConfig.get_subjects g)
                 (PipelineConfig.get_sessions g)).

(** [main()]; the value is the list [logs] handed to [config.save_logs]
    (empty when source estimation is switched off). *)
Definition main : M Globals (list Orchestration.OutcomeRecord) :=
  rse <- asks PipelineConfig.run_source_estimation ;;
  if negb rse then
    log_event (EvLog "Skipping, run_source_estimation is set to False"
                     None None) ;;;
    ret []
  else
    us <- units ;;
    Orchestration.dispatch
      (fun u : string * option string =>
         cfg <- get_config (Some u.1) None ;;
         run_forward_failsafe cfg u.1 u.2)
      us.

End Helpers.

End Forward.

(** ** Conditions and scenarios the properties are stated with *)

Module Scenario.
Import Config.

(** The settings are structurally inconsistent: Maxwell filtering without
    any MEG channel type, or SSP together with ICA. *)
Definition structurally_inconsistent (s : Settings) : Prop :=
  (use_maxwell_filter s = true ∧
   ("meg" ∉ ch_types s) ∧ ("grad" ∉ ch_types s) ∧ ("mag" ∉ ch_types s))
  ∨ (use_ssp s = true ∧ use_ica s = true).

(** [os.mkdir] can provide the directory [p]: it is there already, or the
    name is free and the operating system does not refuse. *)
Definition can_make (denied : string → bool) (w : World) (p : string) : Prop :=
  fs w !! p = Some Dir ∨ (fs w !! p = None ∧ denied p = false).

(** Both directories of the study can be provided. *)
Definition dirs_available (denied : string → bool) (s : Settings) (w : World)
  : Prop :=
  can_make denied w (study_path s) ∧ can_make denied w (subjects_dir s).

(** An operating system that refuses no [mkdir]. *)
Definition permissive (p : string) : bool := false.

Definition empty_world : World := mkWorld ∅ 0 [].

(** [config.py] with eight jobs. *)
Definition eight_jobs : Settings :=
  mkSettings false "data/" "Localizer" ["SB01"] [] [""] ["meg"] true false
             true "tmin=-0.6,tmax=1.5,decim=1" 8.

(** [config.py] asking for both SSP and ICA. *)
Definition ssp_and_ica : Settings :=
  mkSettings false "data/" "Localizer" ["SB01"] [] [""] ["meg"] true true
             true "tmin=-0.6,tmax=1.5,decim=1" 1.

(** The files [run_epochs] reads for one run of a subject (lines 37-44). *)
Definition raw_fname (s : Settings) (subject run : string) : string :=
  Os.join (Os.join (meg_dir s) subject)
    (base_fname s subject
       (if use_maxwell_filter s then run +:+ "_sss_raw"
        else run +:+ "_filt_raw")).

Definition eve_fname (s : Settings) (subject run : string) : string :=
  (Os.splitext (raw_fname s subject run)).1 +:+ "-eve.fif".

(** The inputs of the epoching step for a subject: raw data and events of
    every configured run. *)
Definition epochs_inputs (s : Settings) (subject : string) : list string :=
  flat_map (fun run => [raw_fname s subject run; eve_fname s subject run])
           (runs s).

(** [config.py] with two subjects, the second one excluded. *)
Definition two_subjects : Settings :=
  mkSettings false "data/" "Localizer" ["SB01"; "SB02"] ["SB02"] [""] ["meg"]
             true false true "tmin=-0.6,tmax=1.5,decim=1" 1.

(** Filtered recordings and events of both subjects are on disk. *)
Definition recordings_ready : World :=
  mkWorld (list_to_map [
    ("data/MEG/SB01/SB01_Localizer_sss_raw.fif", File 1 true);
    ("data/MEG/SB01/SB01_Localizer_sss_raw-eve.fif", File 2 true);
    ("data/MEG/SB02/SB02_Localizer_sss_raw.fif", File 3 true);
    ("data/MEG/SB02/SB02_Localizer_sss_raw-eve.fif", File 4 true)]) 5 [].



(** Subject SB01 has been epoched already: the epochs file is newer than
    the recording and the events it was made from. *)
Definition epochs_fresh : World :=
  mkWorld (list_to_map [
    ("data/MEG/SB01/SB01_Localizer_sss_raw.fif", File 1 true);
    ("data/MEG/SB01/SB01_Localizer_sss_raw-eve.fif", File 2 true);
    ("data/MEG/SB01/SB01_Localizer-epo.fif", File 5 true)]) 9 [].

End Scenario.

Module ForwardScenario.
Import Bids Forward.

(** Stand-ins for the two helpers of [config] whose code is missing. *)
Definition bem_conductivity (cfg : Cfg) : option (list string) * string :=
  (None, "5120").
Definition meg_in_ch_types (chs : list string) : bool :=
  bool_decide ("meg" ∈ chs).

(** A study with subjects 01 and 02, the second one excluded, one session,
    and individual MRIs. *)
Definition study : Globals := {|
  PipelineConfig.get_task := Some "rest";
  PipelineConfig.get_runs := fun _ => [Some "01"];
  PipelineConfig.get_datatype := Some "meg";
  PipelineConfig.acq := None;
  PipelineConfig.rec := None;
  PipelineConfig.space := None;
  PipelineConfig.mindist := 5;
  PipelineConfig.spacing := "oct6";
  PipelineConfig.use_template_mri := None;
  PipelineConfig.adjust_coreg := false;
  PipelineConfig.source_info_path_update := [(Esuffix, Some "ave")];
  PipelineConfig.ch_types := ["meg"];
  PipelineConfig.get_fs_subject := fun s => "sub-" +:+ default "" s;
  PipelineConfig.get_fs_subjects_dir := "/d/fs";
  PipelineConfig.get_deriv_root := "/d/deriv";
  PipelineConfig.get_bids_root := "/d/bids";
  PipelineConfig.mri_t1_path_generator := None;
  PipelineConfig.mri_landmarks_kind := None;
  PipelineConfig.run_source_estimation := true;
  PipelineConfig.subjects := ["01"; "02"];
  PipelineConfig.exclude_subjects := ["02"];
  PipelineConfig.get_sessions := [None] |}.

(** The same study with [mri_landmarks_kind] set to a function; every
    other global is as in [study]. *)
Definition study_with_landmarks : Globals := {|
  PipelineConfig.get_task := Some "rest";
  PipelineConfig.get_runs := fun _ => [Some "01"];
  PipelineConfig.get_datatype := Some "meg";
  PipelineConfig.acq := None;
  PipelineConfig.rec := None;
  PipelineConfig.space := None;
  PipelineConfig.mindist := 5;
  PipelineConfig.spacing := "oct6";
  PipelineConfig.use_template_mri := None;
  PipelineConfig.adjust_coreg := false;
  PipelineConfig.source_info_path_update := [(Esuffix, Some "ave")];
  PipelineConfig.ch_types := ["meg"];
  PipelineConfig.get_fs_subject := fun s => "sub-" +:+ default "" s;
  PipelineConfig.get_fs_subjects_dir := "/d/fs";
  PipelineConfig.get_deriv_root := "/d/deriv";
  PipelineConfig.get_bids_root := "/d/bids";
  PipelineConfig.mri_t1_path_generator := None;
  PipelineConfig.mri_landmarks_kind := Some (fun _ => Some "ses-01");
  PipelineConfig.run_source_estimation := true;
  PipelineConfig.subjects := ["01"; "02"];
  PipelineConfig.exclude_subjects := ["02"];
  PipelineConfig.get_sessions := [None] |}.

(** The snapshot [get_config(subject='01')] builds in [study]. *)
Definition cfg01 : Cfg :=
  mkCfg (Some "rest") [Some "01"] (Some "meg") None None None 5 "oct6" None false
        [(Esuffix, Some "ave")] ["meg"] "sub-01" "/d/fs" "/d/deriv" "/d/bids".




(** The derivatives of subject 01 are in place: evoked data, BEM solution
    and source space. *)
Definition inputs_ready : World :=
  mkWorld (list_to_map [
    ("/d/deriv/sub-01/meg/sub-01_task-rest_ave.fif", File 1 true);
    ("/d/fs/sub-01/bem/sub-01-5120-bem-sol.fif", File 2 true);
    ("/d/fs/sub-01/bem/sub-01-oct6-src.fif", File 0 true)]) 3 [].

(** The resolved inputs of subject 01. *)
Definition in_files01 : gmap string Loc :=
  list_to_map [
    ("info", LBids (update (step_bids_path cfg01 "01" None)
                           [(Esuffix, Some "ave")]));
    ("bem", LPath "/d/fs/sub-01/bem/sub-01-5120-bem-sol.fif");
    ("src", LPath "/d/fs/sub-01/bem/sub-01-oct6-src.fif")].

(** The files behind [out_files['trans']] and [out_files['forward']]. *)
Definition trans_fname (cfg : Cfg) (subject : string)
    (session : option string) : string :=
  fpath (update (step_bids_path cfg subject session) [(Esuffix, Some "trans")]).

Definition fwd_fname (cfg : Cfg) (subject : string)
    (session : option string) : string :=
  fpath (update (step_bids_path cfg subject session) [(Esuffix, Some "fwd")]).

(** The record of a unit whose outputs were found up to date. *)
Definition skipped (subject : string) (session : option string)
  : Orchestration.OutcomeRecord :=
  Orchestration.mkOutcome (Orchestration.mkUnit subject session)
    "_04_make_forward.py" Orchestration.SKIPPED None [].

(** Subject 01 after a forward run: trans and forward solution are newer
    than the inputs. *)
Definition outputs_ready : World :=
  mkWorld (list_to_map [
    ("/d/deriv/sub-01/meg/sub-01_task-rest_ave.fif", File 1 true);
    ("/d/fs/sub-01/bem/sub-01-5120-bem-sol.fif", File 2 true);
    ("/d/fs/sub-01/bem/sub-01-oct6-src.fif", File 0 true);
    ("/d/deriv/sub-01/meg/sub-01_task-rest_trans.fif", File 3 true);
    ("/d/deriv/sub-01/meg/sub-01_task-rest_fwd.fif", File 4 true)]) 5 [].

End ForwardScenario.

(** ** What the state of the file system lets a step do *)

Module Pre.

(** The file [p] can be opened and parsed. *)
Definition readable (f : gmap string node) (p : string) : bool :=
  match f !! p with
  | Some (File _ true) => true
  | _ => false
  end.

(** The exception a reader raises on [p], if any. *)
Definition read_error (f : gmap string node) (p : string) : option exn :=
  match f !! p with
  | None => Some (FileNotFoundError p)
  | Some Dir => Some (OSError p)
  | Some (File _ false) => Some (ValueError ("cannot parse " +:+ p))
  | Some (File _ true) => None
  end.

(** The exception a writer raises on [p], if any. *)
Definition write_error (overwrite : bool) (f : gmap string node) (p : string)
  : option exn :=
  match f !! p with
  | Some Dir =>
      Some (if overwrite then IsADirectoryError p else FileExistsError p)
  | Some (File _ _) => if overwrite then None else Some (FileExistsError p)
  | None => None
  end.

End Pre.

(** ** Further situations *)

Module MoreScenarios.
Import Bids Forward.

(** [config.py] with an empty list of runs. *)
Definition no_runs : Config.Settings :=
  Config.mkSettings false "data/" "Localizer" ["SB01"] [] [] ["meg"] true false
             true "tmin=-0.6,tmax=1.5,decim=1" 1.




(** A snapshot using the [fsaverage] template with adjustment. *)
Definition cfg_adjusted : Cfg :=
  mkCfg (Some "rest") [Some "01"] (Some "meg") None None None 5 "oct6"
        (Some "fsaverage") true
        [(Esuffix, Some "ave")] ["meg"] "fsaverage" "/d/fs" "/d/deriv"
        "/d/bids".

(** A generator for [mri_t1_path_generator] that takes the T1 image of
    session 01 and sets neither suffix nor datatype. *)
Definition t1_of_first_session (b : BIDSPath) : BIDSPath :=
  update b [(Esession, Some "01")].

(** The study of [ForwardScenario.study] with this generator. *)
Definition study_with_t1 : Forward.Globals := {|
  PipelineConfig.get_task := Some "rest";
  PipelineConfig.get_runs := fun _ => [Some "01"];
  PipelineConfig.get_datatype := Some "meg";
  PipelineConfig.acq := None;
  PipelineConfig.rec := None;
  PipelineConfig.space := None;
  PipelineConfig.mindist := 5;
  PipelineConfig.spacing := "oct6";
  PipelineConfig.use_template_mri := None;
  PipelineConfig.adjust_coreg := false;
  PipelineConfig.source_info_path_update := [(Esuffix, Some "ave")];
  PipelineConfig.ch_types := ["meg"];
  PipelineConfig.get_fs_subject := fun s => "sub-" +:+ default "" s;
  PipelineConfig.get_fs_subjects_dir := "/d/fs";
  PipelineConfig.get_deriv_root := "/d/deriv";
  PipelineConfig.get_bids_root := "/d/bids";
  PipelineConfig.mri_t1_path_generator := Some t1_of_first_session;
  PipelineConfig.mri_landmarks_kind := None;
  PipelineConfig.run_source_estimation := true;
  PipelineConfig.subjects := ["01"; "02"];
  PipelineConfig.exclude_subjects := ["02"];
  PipelineConfig.get_sessions := [None] |}.

(** The derivatives of subject 01 are in place, the evoked data carrying a
    modification time in the future (a clock that was set back, a file
    copied from another machine). *)
Definition future_input : World :=
  mkWorld (list_to_map [
    ("/d/deriv/sub-01/meg/sub-01_task-rest_ave.fif", File 100 true);
    ("/d/fs/sub-01/bem/sub-01-5120-bem-sol.fif", File 2 true);
    ("/d/fs/sub-01/bem/sub-01-oct6-src.fif", File 0 true)]) 3 [].

(** The snapshot of subject 01 where [source_info_path_update] points the
    info file at the forward solution itself. *)
Definition cfg_info_is_fwd : Cfg :=
  mkCfg (Some "rest") [Some "01"] (Some "meg") None None None 5 "oct6" None
        false [(Esuffix, Some "fwd")] ["meg"] "sub-01" "/d/fs" "/d/deriv"
        "/d/bids".

(** The inputs this snapshot resolves to for subject 01. *)
Definition in_files_info_is_fwd : gmap string Loc :=
  list_to_map [
    ("info", LBids (update (step_bids_path cfg_info_is_fwd "01" None)
                           [(Esuffix, Some "fwd")]));
    ("bem", LPath "/d/fs/sub-01/bem/sub-01-5120-bem-sol.fif");
    ("src", LPath "/d/fs/sub-01/bem/sub-01-oct6-src.fif")].

(** A forward solution of subject 01 is on disk, with BEM solution and
    source space. *)
Definition fwd_on_disk : World :=
  mkWorld (list_to_map [
    ("/d/deriv/sub-01/meg/sub-01_task-rest_fwd.fif", File 1 true);
    ("/d/fs/sub-01/bem/sub-01-5120-bem-sol.fif", File 2 true);
    ("/d/fs/sub-01/bem/sub-01-oct6-src.fif", File 0 true)]) 3 [].

End MoreScenarios.

Module Io.

(** The files opened for reading and the files written, in order, as a
    list of events records them. *)
Definition reads (evs : list event) : list string :=
  omap (fun ev => match ev with EvRead _ p => Some p | _ => None end) evs.

Definition writes (evs : list event) : list string :=
  omap (fun ev => match ev with EvWrite _ p => Some p | _ => None end) evs.

End Io.

(** * Properties *)

(** ** The monad *)

Lemma bind_inv {G A B} (m : M G A) (k : A → M G B) g w r w' :
  bind m k g w = (r, w') →
  (∃ a w1, m g w = (Ok a, w1) ∧ k a g w1 = (r, w'))
  ∨ (∃ e, m g w = (Raise e, w') ∧ r = Raise e).
Proof.
  unfold bind. destruct (m g w) as [[a|e] w1]; intros H.
  - left. eauto.
  - right. injection H as <- <-. eauto.
Qed.

Lemma bind_ok {G A B} (m : M G A) (k : A → M G B) g w a w1 :
  m g w = (Ok a, w1) → bind m k g w = k a g w1.
Proof. unfold bind. by intros ->. Qed.

Lemma bind_raise {G A B} (m : M G A) (k : A → M G B) g w e w1 :
  m g w = (Raise e, w1) → bind m k g w = (Raise e, w1).
Proof. unfold bind. by intros ->. Qed.

Lemma string_length_app (a b : string) :
  String.length (a +:+ b) = String.length a + String.length b.
Proof.
  induction a as [|c a IH]; [done|].
  unfold String.append; fold String.append. simpl. by rewrite IH.
Qed.

(** ** Computations that only read and log *)

Create HintDb quiet.

Lemma quiet_ret {G A} (a : A) : quiet (G := G) (ret a).
Proof. intros g w. simpl. repeat split. exists []. by rewrite app_nil_r. Qed.
Lemma quiet_raise {G A} e : quiet (G := G) (A := A) (raise e).
Proof. intros g w. simpl. repeat split. exists []. by rewrite app_nil_r. Qed.
Lemma quiet_ask {G} : quiet (G := G) ask.
Proof. intros g w. simpl. repeat split. exists []. by rewrite app_nil_r. Qed.
Lemma quiet_asks {G A} (f : G → A) : quiet (asks f).
Proof. intros g w. simpl. repeat split. exists []. by rewrite app_nil_r. Qed.
Lemma quiet_log_event {G} ev : quiet (G := G) (log_event ev).
Proof. intros g w. simpl. repeat split. by exists [ev]. Qed.
Lemma quiet_read_file {G} what p : quiet (G := G) (Os.read_file what p).
Proof.
  intros g w. unfold Os.read_file.
  destruct (fs w !! p) as [[|t []]|]; simpl; repeat split; by eexists.
Qed.
Lemma quiet_bind {G A B} (m : M G A) (k : A → M G B) :
  quiet m → (∀ a, quiet (k a)) → quiet (bind m k).
Proof.
  intros Hm Hk g w. unfold bind.
  destruct (Hm g w) as (F & C & evs & T).
  destruct (m g w) as [[a|e] w1]; simpl in *.
  - destruct (Hk a g w1) as (F' & C' & evs' & T').
    rewrite F', C', T', F, C, T. repeat split.
    exists (evs ++ evs'). by rewrite app_assoc.
  - eauto.
Qed.
Lemma quiet_for_each {G A S} (xs : list A) (body : S → A → M G S) acc :
  (∀ a x, quiet (body a x)) → quiet (for_each xs body acc).
Proof.
  intros Hb. revert acc. induction xs as [|x xs IH]; intros acc; simpl.
  - apply quiet_ret.
  - apply quiet_bind; auto.
Qed.
#[global] Hint Resolve quiet_ret quiet_raise quiet_ask quiet_asks quiet_log_event
  quiet_read_file quiet_for_each : quiet.
#[global] Hint Extern 2 (quiet (bind _ _)) => apply quiet_bind; [|intros ?] : quiet.
#[global] Hint Extern 3 (quiet (if ?b then _ else _)) => destruct b : quiet.
#[global] Hint Extern 3 (quiet (match ?b with _ => _ end)) => destruct b : quiet.

Lemma quiet_run {G A} (m : M G A) g w r w' :
  quiet m → m g w = (r, w') →
  fs w' = fs w ∧ clock w' = clock w ∧ ∃ evs, trace w' = trace w ++ evs.
Proof. intros Hq E. specialize (Hq g w). by rewrite E in Hq. Qed.

Lemma write_file_ok {G} ov what p (g : G) w u w' :
  Os.write_file ov what p g w = (Ok u, w') →
  fs w' = <[p := File (clock w) true]> (fs w)
  ∧ clock w' = S (clock w)
  ∧ trace w' = trace w ++ [EvWrite what p].
Proof.
  unfold Os.write_file.
  destruct (fs w !! p) as [[|t b]|]; destruct ov;
    intros [= <- <-]; done.
Qed.

Lemma log_event_ok {G} ev (g : G) w u w' :
  log_event ev g w = (Ok u, w') →
  fs w' = fs w ∧ clock w' = clock w ∧ trace w' = trace w ++ [ev].
Proof. by intros [= <- <-]. Qed.

Lemma added_app w w' evs : trace w' = trace w ++ evs → added w w' = evs.
Proof. unfold added. intros ->. by rewrite drop_app_length. Qed.

(** ** Computations that return again in a world that covers the first *)

Create HintDb replay.

Lemma covers_emit w w' ev ev' : covers w w' → covers (emit ev w) (emit ev' w').
Proof. done. Qed.

Lemma replayable_ret {G A} (a : A) : replayable (G := G) (ret a).
Proof. intros g w w' b w1 Hc [= <- <-]. eauto. Qed.
Lemma replayable_raise {G A} e : replayable (G := G) (A := A) (raise e).
Proof. intros g w w' b w1 Hc [=]. Qed.
Lemma replayable_asks {G A} (f : G → A) : replayable (asks f).
Proof. intros g w w' b w1 Hc [= <- <-]. eauto. Qed.
Lemma replayable_log_event {G} ev : replayable (G := G) (log_event ev).
Proof. intros g w w' b w1 Hc [= <- <-]. eauto using covers_emit. Qed.
Lemma replayable_read_file {G} what p : replayable (G := G) (Os.read_file what p).
Proof.
  intros g w w' b w1 Hc. unfold Os.read_file.
  destruct (fs w !! p) as [[|t []]|] eqn:E; intros [= <- <-].
  destruct (proj1 Hc p t E) as [t' ->]. eauto using covers_emit.
Qed.
Lemma replayable_write_file {G} what p :
  replayable (G := G) (Os.write_file true what p).
Proof.
  intros g w w' b w1 [Hf Hd]. unfold Os.write_file.
  assert (fs w !! p ≠ Some Dir → fs w' !! p ≠ Some Dir) as Hn by naive_solver.
  assert (covers
            (mkWorld (<[p:=File (clock w) true]> (fs w)) (S (clock w))
                     (trace (emit (EvWrite what p) w)))
            (mkWorld (<[p:=File (clock w') true]> (fs w')) (S (clock w'))
                     (trace (emit (EvWrite what p) w')))) as Hc.
  { split; simpl.
    - intros q t. destruct (base.decide (p = q)) as [<-|Hne].
      + rewrite !lookup_insert_eq. eauto.
      + rewrite !lookup_insert_ne by done. apply Hf.
    - intros q. destruct (base.decide (p = q)) as [<-|Hne].
      + rewrite !lookup_insert_eq. done.
      + rewrite !lookup_insert_ne by done. apply Hd. }
  destruct (fs w !! p) as [[|t b']|] eqn:E; intros [= <- <-];
    destruct (fs w' !! p) as [[|t' b'']|] eqn:E'; eauto;
    exfalso; by apply Hn.
Qed.
Lemma replayable_bind {G A B} (m : M G A) (k : A → M G B) :
  replayable m → (∀ a, replayable (k a)) → replayable (bind m k).
Proof.
  intros Hm Hk g w w' b w1 Hc H.
  apply bind_inv in H as [(a & wa & Ha & H) | (? & _ & [=])].
  destruct (Hm g w w' a wa Hc Ha) as (wa' & Ha' & Hca).
  destruct (Hk a g wa wa' b w1 Hca H) as (w1' & H' & Hc1).
  exists w1'. split; [|done]. by rewrite (bind_ok _ _ _ _ _ _ Ha').
Qed.
Lemma replayable_for_each {G A S} (xs : list A) (body : S → A → M G S) acc :
  (∀ a x, replayable (body a x)) → replayable (for_each xs body acc).
Proof.
  intros Hb. revert acc. induction xs as [|x xs IH]; intros acc; simpl.
  - apply replayable_ret.
  - apply replayable_bind; auto.
Qed.
#[global] Hint Resolve replayable_ret replayable_raise replayable_asks
  replayable_log_event replayable_read_file replayable_write_file
  replayable_for_each : replay.
#[global] Hint Extern 2 (replayable (bind _ _)) =>
  apply replayable_bind; [|intros ?] : replay.
#[global] Hint Extern 3 (replayable (if ?b then _ else _)) => destruct b : replay.
#[global] Hint Extern 3 (replayable (match ?b with _ => _ end)) =>
  destruct b : replay.

(** ** [config.py] *)

Module ConfigFacts.
Import Config Scenario.

Lemma no_meg_channels_spec chs :
  no_meg_channels chs = true ↔
  ("meg" ∉ chs) ∧ ("grad" ∉ chs) ∧ ("mag" ∉ chs).
Proof.
  unfold no_meg_channels. rewrite bool_decide_eq_true.
  rewrite length_zero_iff_nil.
  rewrite !filter_cons, filter_nil.
  pose proof (elem_of_remove_dups chs) as E.
  repeat case_decide; rewrite ?E in *; split; intros HH;
    try discriminate; tauto.
Qed.

(** The CHECKS block raises a [ValueError] exactly on inconsistent settings
    and never touches the world. *)
Lemma checks_spec s w :
  (structurally_inconsistent s →
     ∃ msg, checks s w = (Raise (ValueError msg), w)) ∧
  (¬ structurally_inconsistent s → checks s w = (Ok tt, w)).
Proof.
  unfold structurally_inconsistent, checks, bind, ask, raise, ret.
  rewrite <- no_meg_channels_spec.
  destruct (use_maxwell_filter s), (no_meg_channels (ch_types s)),
    (use_ssp s), (use_ica s); simpl; split; intros HH; eauto;
    solve [ exfalso; apply HH; auto
          | destruct HH as [[? ?]|[? ?]]; discriminate ].
Qed.

Lemma join_subjects_ne a : Os.join a "subjects" ≠ a.
Proof.
  unfold Os.join. simpl String.prefix.
  intros E. apply (f_equal String.length) in E. revert E.
  case_bool_decide as Ha; [subst a; simpl; discriminate|].
  destruct (String.prefix "/" (String.rev a));
    rewrite ?string_length_app; simpl; lia.
Qed.

Section LoadFacts.
Variable denied : string → bool.

Lemma mkdir_fs p (g : Settings) w r w' :
  Os.mkdir denied p g w = (r, w') →
  clock w' = clock w ∧
  (∀ q, q ≠ p → fs w' !! q = fs w !! q) ∧
  (∀ q n, fs w !! q = Some n → fs w' !! q = Some n) ∧
  (r = Ok tt → fs w !! p = None ∧ fs w' !! p = Some Dir).
Proof.
  unfold Os.mkdir. destruct (fs w !! p) eqn:E.
  - intros [= <- <-]. simpl. repeat split; auto; discriminate.
  - destruct (denied p); intros [= <- <-]; simpl.
    + repeat split; auto; discriminate.
    + repeat split; auto.
      * intros q Hq. by rewrite lookup_insert_ne.
      * intros q n Hq. rewrite lookup_insert_ne; [done|]. congruence.
      * by rewrite lookup_insert_eq.
Qed.

Lemma mkdir_if_missing_fs p (g : Settings) w r w' :
  mkdir_if_missing denied p g w = (r, w') →
  clock w' = clock w ∧
  (∀ q, q ≠ p → fs w' !! q = fs w !! q) ∧
  (∀ q n, fs w !! q = Some n → fs w' !! q = Some n) ∧
  (r = Ok tt → fs w' !! p = Some Dir).
Proof.
  unfold mkdir_if_missing, bind, Os.isdir. case_bool_decide as Hd; simpl.
  - intros [= <- <-]. auto.
  - intros H. apply mkdir_fs in H as (C & F & P & D).
    repeat split; auto. intros Hr. by apply D.
Qed.

(** The directory block changes nothing but the two directories, keeps every
    entry that exists, and leaves both in place when it gets through. *)
Lemma make_dirs_fs s w r w' :
  make_dirs denied s w = (r, w') →
  clock w' = clock w ∧
  (∀ q, q ≠ study_path s → q ≠ subjects_dir s → fs w' !! q = fs w !! q) ∧
  (∀ q n, fs w !! q = Some n → fs w' !! q = Some n) ∧
  (r = Ok tt →
     fs w' !! study_path s = Some Dir ∧ fs w' !! subjects_dir s = Some Dir).
Proof.
  unfold make_dirs, asks, bind.
  destruct (mkdir_if_missing denied (study_path s) s w) as [r1 w1] eqn:E1.
  apply mkdir_if_missing_fs in E1 as (C1 & F1 & P1 & D1).
  destruct r1 as [[]|e].
  - destruct (mkdir_if_missing denied (subjects_dir s) s w1) as [r2 w2] eqn:E2.
    apply mkdir_if_missing_fs in E2 as (C2 & F2 & P2 & D2).
    intros [= <- <-]. repeat split.
    + congruence.
    + intros q H1 H2. rewrite F2, F1; auto.
    + auto.
    + apply P2, D1. done.
    + auto.
  - intros [= <- <-]. repeat split; auto; discriminate.
Qed.

(** The world after [import config] is the world after the directory
    block, whatever the checks say. *)
Lemma load_world s w :
  (load denied s w).2 = (make_dirs denied s w).2.
Proof.
  unfold load, bind. destruct (make_dirs denied s w) as [[[]|e] w1]; [|done].
  destruct (decide (structurally_inconsistent s)) as [Hs|Hs].
  - destruct (proj1 (checks_spec s w1) Hs) as [msg ->]. done.
  - by rewrite (proj2 (checks_spec s w1) Hs).
Qed.

Lemma mkdir_if_missing_ok p (g : Settings) w :
  can_make denied w p → ∃ w1, mkdir_if_missing denied p g w = (Ok tt, w1).
Proof.
  unfold mkdir_if_missing, bind, Os.isdir, Os.mkdir.
  intros [Hd|[Hn Hp]].
  - rewrite bool_decide_eq_true_2 by done. simpl. eauto.
  - rewrite bool_decide_eq_false_2 by congruence. simpl.
    rewrite Hn, Hp. eauto.
Qed.

(** The directory block gets through whenever both directories can be
    provided. *)
Lemma make_dirs_ok s w :
  dirs_available denied s w → ∃ w1, make_dirs denied s w = (Ok tt, w1).
Proof.
  intros [H1 H2]. unfold make_dirs, asks, bind.
  destruct (mkdir_if_missing_ok (study_path s) s w H1) as [w1 E1].
  rewrite E1.
  apply mkdir_if_missing_fs in E1 as (_ & F1 & _ & _).
  apply mkdir_if_missing_ok. unfold can_make.
  rewrite F1; [done|]. apply join_subjects_ne.
Qed.

(** The directory block raises nothing but the errors of [os.mkdir]. *)
Lemma make_dirs_raises s w e w1 :
  make_dirs denied s w = (Raise e, w1) →
  (∃ p, e = FileExistsError p) ∨ (∃ p, e = OSError p).
Proof.
  assert (∀ p (g : Settings) w0 e0 w2,
            mkdir_if_missing denied p g w0 = (Raise e0, w2) →
            (∃ q, e0 = FileExistsError q) ∨ (∃ q, e0 = OSError q)) as Hm.
  { intros p g w0 e0 w2. unfold mkdir_if_missing, bind, Os.isdir, Os.mkdir.
    case_bool_decide; simpl; [discriminate|].
    destruct (fs w0 !! p); [|destruct (denied p)]; intros [= <- <-]; eauto. }
  unfold make_dirs, asks. intros H.
  apply bind_inv in H as [(? & ? & [= <- <-] & H) | (? & [=] & _)].
  apply bind_inv in H as [(? & ? & _ & H) | (? & H & [= <-])];
    [|by eapply Hm].
  apply bind_inv in H as [(? & ? & [= <- <-] & H) | (? & [=] & _)].
  by eapply Hm.
Qed.

(** A [ValueError] on loading comes from the checks alone, in any world. *)
Lemma load_value_error s w msg :
  (load denied s w).1 = Raise (ValueError msg) → structurally_inconsistent s.
Proof.
  unfold load. destruct (bind _ _ s w) as [r w'] eqn:E. simpl. intros ->.
  apply bind_inv in E as [([] & w1 & Hd & Hc) | (e & Hd & [= <-])].
  - destruct (decide (structurally_inconsistent s)) as [Hs|Hs]; [done|].
    rewrite (proj2 (checks_spec s w1) Hs) in Hc. discriminate.
  - apply make_dirs_raises in Hd as [[p [=]]|[p [=]]].
Qed.

(** C8: loading the configuration module, in a world where the two study
    directories can be provided, raises a [ValueError] exactly when the
    settings are structurally inconsistent (Maxwell filter without any of
    'meg', 'grad', 'mag' in [ch_types], or SSP together with ICA); the
    abort happens in the module body, so the epoching script ends there
    and no work unit runs; for every other combination of these settings
    the module loads without raising. *)
Theorem load_raises_iff_inconsistent s w :
  dirs_available denied s w →
  ∃ w1, make_dirs denied s w = (Ok tt, w1)
    ∧ ((∃ msg, load denied s w = (Raise (ValueError msg), w1))
         ↔ structurally_inconsistent s)
    ∧ (load denied s w = (Ok tt, w1) ↔ ¬ structurally_inconsistent s)
    ∧ (structurally_inconsistent s →
         ∀ ov, ∃ msg,
           Epochs.script ov denied s w = (Raise (ValueError msg), w1)).
Proof.
  intros Ha. destruct (make_dirs_ok s w Ha) as [w1 Hd].
  exists w1. split; [done|].
  unfold Epochs.script, load. rewrite (bind_ok _ _ _ _ _ _ Hd).
  destruct (checks_spec s w1) as [Hi Hc].
  destruct (decide (structurally_inconsistent s)) as [Hs|Hs].
  - destruct (Hi Hs) as [msg E]. rewrite E.
    repeat split; eauto; try done; try discriminate.
    intros _ ov. exists msg. unfold bind. rewrite Hd, E. done.
  - rewrite (Hc Hs). repeat split; try done.
    intros [msg ?]. discriminate.
Qed.

(** C9: loading the configuration module acts on the file system: in a
    world where the two study directories can be provided, [study_path]
    and [subjects_dir] are directories after the load (created if they
    were not), also when the checks then abort it; no other location
    changes, no existing entry is replaced, the clock is not touched, and
    a load that had a directory to create leaves a file system different
    from the one it started in. *)
Theorem load_creates_directories s w :
  dirs_available denied s w →
  let w' := (load denied s w).2 in
  fs w' !! study_path s = Some Dir
  ∧ fs w' !! subjects_dir s = Some Dir
  ∧ (∀ q, q ≠ study_path s → q ≠ subjects_dir s → fs w' !! q = fs w !! q)
  ∧ (∀ q n, fs w !! q = Some n → fs w' !! q = Some n)
  ∧ clock w' = clock w
  ∧ (fs w !! study_path s ≠ Some Dir ∨ fs w !! subjects_dir s ≠ Some Dir
     → fs w' ≠ fs w).
Proof.
  intros Ha w'. subst w'. rewrite load_world.
  destruct (make_dirs_ok s w Ha) as [w1 E]. rewrite E. simpl.
  apply make_dirs_fs in E as (C & F & P & D).
  destruct (D eq_refl) as [D1 D2].
  repeat split; auto.
  intros [H|H] Heq; apply H; congruence.
Qed.

End LoadFacts.

Lemma empty_world_dirs_available s : dirs_available permissive s empty_world.
Proof. split; right; split; reflexivity || apply lookup_empty. Qed.

Lemma load_raises_iff_inconsistent_witness :
  ∃ msg, (load permissive ssp_and_ica empty_world).1 = Raise (ValueError msg).
Proof.
  destruct (load_raises_iff_inconsistent permissive ssp_and_ica empty_world)
    as (w1 & _ & [_ H] & _).
  - apply empty_world_dirs_available.
  - destruct H as [msg E].
    + right. split; reflexivity.
    + exists msg. rewrite E. reflexivity.
Defined.

Lemma load_creates_directories_witness :
  fs (load permissive Config.default empty_world).2 !! "data/subjects"
    = Some Dir
  ∧ fs (load permissive Config.default empty_world).2 ≠ fs empty_world.
Proof.
  destruct (load_creates_directories permissive Config.default empty_world)
    as (_ & D & _ & _ & _ & N).
  - apply empty_world_dirs_available.
  - split; [exact D|]. apply N. left. vm_compute. discriminate.
Defined.

End ConfigFacts.

(** ** [04-make_epochs.py]: the pool size *)

Module EpochsFacts.
Import Config Epochs.

Lemma quiet_load_run subject dir acc run : quiet (load_run subject dir acc run).
Proof. unfold load_run. auto 20 with quiet. Qed.

Lemma quiet_concatenate_raws rl el : quiet (concatenate_raws rl el).
Proof. unfold concatenate_raws. destruct rl; auto with quiet. Qed.

Lemma quiet_load_and_epoch subject : quiet (load_and_epoch subject).
Proof.
  unfold load_and_epoch.
  auto 30 using quiet_load_run, quiet_concatenate_raws with quiet.
Qed.

Lemma replayable_load_and_epoch subject : replayable (load_and_epoch subject).
Proof.
  unfold load_and_epoch, load_run, concatenate_raws. auto 40 with replay.
Qed.

(** The first part of [run_epochs], when it returns, has computed the
    epochs and left the files alone. *)
Lemma load_and_epoch_ok s subject w u w1 :
  load_and_epoch subject s w = (Ok u, w1) →
  fs w1 = fs w ∧ clock w1 = clock w
  ∧ ∃ evs, trace w1 = trace w ++ evs
           ∧ EvCompute "Epochs" [epoch_params s] ∈ evs.
Proof.
  intros H.
  destruct (quiet_run _ _ _ _ _ (quiet_load_and_epoch subject) H)
    as (F & C & _).
  split; [done|]. split; [done|].
  unfold load_and_epoch in H.
  repeat (apply bind_inv in H as [(? & ? & ?Hm & H) | (? & _ & [=])]).
  repeat match goal with
         | E : asks _ _ _ = _ |- _ => injection E as <- <-
         end.
  apply log_event_ok in H as (_ & _ & T).
  repeat match goal with
         | E : _ _ _ = (_, _) |- _ =>
             apply quiet_run in E as (_ & _ & ? & ?);
             [|auto 10 using quiet_load_run, quiet_concatenate_raws with quiet]
         end.
  eexists. split.
  - rewrite T.
    repeat match goal with E : trace _ = _ |- _ => rewrite E; clear E end.
    rewrite <- !app_assoc. reflexivity.
  - set_solver.
Qed.

(** The second part, when it returns, has written the epochs file; where
    existing files are refused, the file was not there before. *)
Lemma save_and_plot_ok ov s subject w u w1 :
  save_and_plot ov subject s w = (Ok u, w1) →
  fs w1 = <[epochs_fname s subject := File (clock w) true]> (fs w)
  ∧ clock w1 = S (clock w)
  ∧ (∃ evs, trace w1 = trace w ++ evs
            ∧ EvWrite "epochs" (epochs_fname s subject) ∈ evs)
  ∧ (ov = false → fs w !! epochs_fname s subject = None).
Proof.
  unfold save_and_plot. intros H.
  repeat (apply bind_inv in H as [(? & ? & ?Hm & H) | (? & _ & [=])]).
  repeat match goal with
         | E : asks _ _ _ = _ |- _ => injection E as <- <-
         end.
  match goal with
  | E : Os.write_file _ _ _ _ _ = _ |- _ =>
      pose proof E as Hw; apply write_file_ok in E as (? & ? & ?)
  end.
  repeat match goal with
         | E : log_event _ _ _ = _ |- _ =>
             apply quiet_run in E as (? & ? & ? & ?); [|auto with quiet]
         end.
  apply quiet_run in H as (? & ? & ? & ?); [|auto 10 with quiet].
  split; [congruence|]. split; [congruence|]. split.
  - eexists. split.
    + repeat match goal with E : trace _ = _ |- _ => rewrite E; clear E end.
      rewrite <- !app_assoc. reflexivity.
    + set_solver.
  - intros ->. unfold Os.write_file in Hw.
    destruct (fs _ !! epochs_fname s subject) as [[|]|] eqn:El;
      try discriminate.
    congruence.
Qed.

(** Where existing files are refused, the second part raises on an
    existing epochs file and writes nothing. *)
Lemma save_and_plot_refused s subject w t b :
  fs w !! epochs_fname s subject = Some (File t b) →
  ∃ w1, save_and_plot false subject s w
        = (Raise (FileExistsError (epochs_fname s subject)), w1)
    ∧ fs w1 = fs w
    ∧ ∃ evs, trace w1 = trace w ++ evs.
Proof.
  intros Hl. unfold save_and_plot, bind, log_event, asks, Os.write_file.
  simpl. rewrite Hl. eexists. split; [reflexivity|]. split; [done|].
  simpl. rewrite <- !app_assoc. eauto.
Qed.

Lemma replayable_save_and_plot subject :
  replayable (save_and_plot true subject).
Proof. unfold save_and_plot. auto 20 with replay. Qed.

Lemma replayable_run_epochs subject : replayable (run_epochs true subject).
Proof.
  unfold run_epochs.
  auto using replayable_load_and_epoch, replayable_save_and_plot with replay.
Qed.

(** A run of [run_epochs] that returns has computed the epochs and written
    the epochs file, stamped with the time of the call. *)
Lemma run_epochs_ok ov s subject w w1 :
  run_epochs ov subject s w = (Ok tt, w1) →
  fs w1 = <[epochs_fname s subject := File (clock w) true]> (fs w)
  ∧ clock w1 = S (clock w)
  ∧ ∃ evs, trace w1 = trace w ++ evs
           ∧ EvCompute "Epochs" [epoch_params s] ∈ evs
           ∧ EvWrite "epochs" (epochs_fname s subject) ∈ evs.
Proof.
  unfold run_epochs. intros H.
  apply bind_inv in H as [(u & wa & Ha & H) | (? & _ & [=])].
  apply load_and_epoch_ok in Ha as (Fa & Ca & evs1 & Ta & Ea).
  apply save_and_plot_ok in H as (Fb & Cb & (evs2 & Tb & Eb) & _).
  split; [congruence|]. split; [congruence|].
  exists (evs1 ++ evs2). rewrite Tb, Ta, app_assoc.
  split; [done|]. set_solver.
Qed.

Lemma covers_after_run ov s subject w w1 :
  run_epochs ov subject s w = (Ok tt, w1) → covers w w1.
Proof.
  intros H. apply run_epochs_ok in H as (F1 & _).
  split; intros p; rewrite F1;
    destruct (decide (epochs_fname s subject = p)) as [<-|Hne].
  - rewrite lookup_insert_eq. eauto.
  - rewrite lookup_insert_ne by done. eauto.
  - by rewrite lookup_insert_eq.
  - by rewrite lookup_insert_ne.
Qed.

(** Where [epochs.save] replaces existing files: after a run of
    [run_epochs] that returned, a second run returns again, having computed
    the epochs and written the epochs file once more, with a later
    modification time. *)
Lemma run_epochs_again s subject w w1 :
  run_epochs true subject s w = (Ok tt, w1) →
  ∃ w2, run_epochs true subject s w1 = (Ok tt, w2)
    ∧ Os.mtime (fs w1) (epochs_fname s subject) = Some (clock w)
    ∧ Os.mtime (fs w2) (epochs_fname s subject) = Some (S (clock w))
    ∧ ∃ evs, trace w2 = trace w1 ++ evs
             ∧ EvCompute "Epochs" [epoch_params s] ∈ evs
             ∧ EvWrite "epochs" (epochs_fname s subject) ∈ evs.
Proof.
  intros H1. pose proof (run_epochs_ok _ _ _ _ _ H1) as (F1 & C1 & _).
  pose proof (covers_after_run _ _ _ _ _ H1) as Hc.
  destruct (replayable_run_epochs subject s w w1 tt w1 Hc H1) as (w2 & H2 & _).
  exists w2. split; [done|].
  pose proof (run_epochs_ok _ _ _ _ _ H2) as (F2 & C2 & T2).
  unfold Os.mtime. rewrite F2, F1, !lookup_insert_eq, C1. done.
Qed.

(** Where [epochs.save] refuses existing files: after a run of
    [run_epochs] that returned, a second run reads the recordings and
    computes the epochs again and then raises on the epochs file of the
    first run. *)
Lemma run_epochs_again_refused s subject w w1 :
  run_epochs false subject s w = (Ok tt, w1) →
  ∃ w2, run_epochs false subject s w1
        = (Raise (FileExistsError (epochs_fname s subject)), w2)
    ∧ fs w2 = fs w1
    ∧ ∃ evs, trace w2 = trace w1 ++ evs
             ∧ EvCompute "Epochs" [epoch_params s] ∈ evs.
Proof.
  intros H1. pose proof (run_epochs_ok _ _ _ _ _ H1) as (F1 & _).
  pose proof (covers_after_run _ _ _ _ _ H1) as Hc.
  unfold run_epochs in H1.
  apply bind_inv in H1 as [(u & wa & Ha & _) | (? & _ & [=])].
  destruct (replayable_load_and_epoch subject s w w1 u wa Hc Ha)
    as (wa' & Ha' & _).
  pose proof (load_and_epoch_ok _ _ _ _ _ Ha') as (Fa & _ & evs1 & Ta & Ea).
  destruct (save_and_plot_refused s subject wa' (clock w) true)
    as (w2 & Hs & Fs & evs2 & Ts).
  { rewrite Fa, F1. apply lookup_insert_eq. }
  exists w2. split; [|split].
  - unfold run_epochs. rewrite (bind_ok _ _ _ _ _ _ Ha'). exact Hs.
  - congruence.
  - exists (evs1 ++ evs2). rewrite Ts, Ta, app_assoc. split; [done|].
    set_solver.
Qed.



(** C7: the epoching step runs with [max(N_JOBS // 4, 1)] jobs: for a
    configured [N_JOBS >= 1] that is at least 1 and at most [N_JOBS], and
    smaller than [N_JOBS] from 5 on. *)
Theorem N_JOBS_reduced s :
  (1 ≤ Config.N_JOBS s)%Z →
  Epochs.N_JOBS s = Z.max (Config.N_JOBS s / 4) 1
  ∧ (1 ≤ Epochs.N_JOBS s ≤ Config.N_JOBS s)%Z
  ∧ ((5 ≤ Config.N_JOBS s)%Z → (Epochs.N_JOBS s < Config.N_JOBS s)%Z).
Proof.
  intros H. unfold Epochs.N_JOBS.
  pose proof (Z.div_le_upper_bound (Config.N_JOBS s) 4 (Config.N_JOBS s)).
  assert (Config.N_JOBS s / 4 < Config.N_JOBS s)%Z
    by (apply Z.div_lt; lia).
  repeat split; lia.
Qed.

Lemma N_JOBS_reduced_witness :
  Epochs.N_JOBS Scenario.eight_jobs = 2%Z
  ∧ (Epochs.N_JOBS Scenario.eight_jobs < 8)%Z.
Proof.
  destruct (N_JOBS_reduced Scenario.eight_jobs) as (E & B & L).
  - simpl. lia.
  - split; [rewrite E; reflexivity|]. apply L. simpl. lia.
Defined.

End EpochsFacts.

(** ** The orchestration layer *)

Module OrchestrationFacts.
Import Bids Orchestration.

Lemma not_older_spec f t_out i :
  not_older f t_out i = true ↔ ∀ t_in, Os.mtime f i = Some t_in → t_in ≤ t_out.
Proof.
  unfold not_older. destruct (Os.mtime f i) as [t|].
  - rewrite Nat.leb_le. split; [intros H ? [= <-]; done | eauto].
  - split; [intros _ ? [=] | done].
Qed.

Lemma output_current_spec f inputs o :
  output_current f inputs o = true ↔
  ∃ t_out, Os.mtime f o = Some t_out ∧
    ∀ i, i ∈ inputs → ∀ t_in, Os.mtime f i = Some t_in → t_in ≤ t_out.
Proof.
  unfold output_current. destruct (Os.mtime f o) as [t|].
  - rewrite forallb_forall. setoid_rewrite not_older_spec.
    setoid_rewrite <- list_elem_of_In.
    split; [eauto | by intros (? & [= <-] & ?)].
  - split; [done | by intros (? & [=] & _)].
Qed.

Lemma decide_spec f inputs outputs :
  decide f inputs outputs = CURRENT ↔
  ∀ o, o ∈ outputs →
    ∃ t_out, Os.mtime f o = Some t_out ∧
      ∀ i, i ∈ inputs → ∀ t_in, Os.mtime f i = Some t_in → t_in ≤ t_out.
Proof.
  unfold decide.
  destruct (forallb (output_current f inputs) outputs) eqn:E.
  - rewrite forallb_forall in E. split; [|done].
    intros _ o Ho. apply output_current_spec, E. by apply list_elem_of_In.
  - split; [done|]. intros H. exfalso.
    assert (forallb (output_current f inputs) outputs = true); [|congruence].
    apply forallb_forall. intros o Ho.
    apply output_current_spec, H. by apply list_elem_of_In.
Qed.

Lemma decide_cases f inputs outputs :
  decide f inputs outputs = CURRENT ∨ decide f inputs outputs = STALE.
Proof. unfold decide. destruct (forallb _ _); auto. Qed.

Section Runner.
Context {G Cfg : Type}.

Lemma run_total step_name u
    (step_body : gmap string Loc → Cfg → M G (gmap string Loc))
    inputs cfg g w :
  ∃ r w', run step_name u step_body inputs cfg g w = (Ok r, w')
    ∧ unit r = u
    ∧ match (step_body inputs cfg g w).1 with
      | Ok out_files =>
          status r = SUCCESS ∧ produced r = map_to_list out_files
          ∧ w' = (step_body inputs cfg g w).2
      | Raise e => status r = FAILED ∧ error r = Some (classify e, e)
      end.
Proof.
  unfold run, try_except, bind.
  destruct (step_body inputs cfg g w) as [[out|e] w1]; simpl; eauto 10.
Qed.

Lemma map_M_total {U R} (f : U → M G R) (P : U → R → Prop) us :
  (∀ u g w, ∃ r w', f u g w = (Ok r, w') ∧ P u r) →
  ∀ g w, ∃ rs w', map_M f us g w = (Ok rs, w') ∧ Forall2 P us rs.
Proof.
  intros Hf. induction us as [|u us IH]; intros g w; simpl.
  - eexists _, _. split; [reflexivity|constructor].
  - destruct (Hf u g w) as (r & w1 & E & HP).
    destruct (IH g w1) as (rs & w2 & E2 & HF).
    exists (r :: rs), w2. split; [|by constructor].
    unfold bind. rewrite E, E2. done.
Qed.

End Runner.
End OrchestrationFacts.

(** ** [_04_make_forward.py] *)

Module ForwardFacts.
Import Bids Forward ForwardScenario Orchestration OrchestrationFacts.

Lemma quiet_pop {G} key d : quiet (G := G) (pop key d).
Proof. unfold pop. destruct (d !! key); auto with quiet. Qed.

Lemma quiet_prepare_trans_template cfg info :
  quiet (_prepare_trans_template cfg info).
Proof.
  unfold _prepare_trans_template.
  destruct (use_template_mri cfg); auto with quiet.
  repeat case_match; auto 10 with quiet.
Qed.

Lemma quiet_prepare_trans cfg bp : quiet (_prepare_trans cfg bp).
Proof. unfold _prepare_trans. auto 20 with quiet. Qed.

Lemma quiet_make_forward_solution {G} info trans src bem mindist :
  quiet (G := G) (make_forward_solution info trans src bem mindist).
Proof. unfold make_forward_solution. destruct trans; auto 20 with quiet. Qed.

Lemma run_forward_ok meg_in cfg subject session in_files g w out w1 :
  run_forward meg_in cfg subject session in_files g w = (Ok out, w1) →
  out = out_files_forward cfg subject session
  ∧ fs w1 = <[fwd_fname cfg subject session := File (S (clock w)) true]>
              (<[trans_fname cfg subject session := File (clock w) true]>
                 (fs w))
  ∧ clock w1 = S (S (clock w)).
Proof.
  unfold run_forward. intros H.
  repeat (apply bind_inv in H as [(? & ? & ?Hm & H) | (? & _ & [=])]).
  injection H as <- <-.
  repeat match goal with
         | E : Os.write_file _ _ _ _ _ = _ |- _ =>
             apply write_file_ok in E as (? & ? & _)
         end.
  repeat match goal with
         | E : _ _ _ = (_, _) |- _ =>
             apply quiet_run in E as (? & ? & _);
             [|auto 10 using quiet_pop, quiet_prepare_trans_template,
                 quiet_prepare_trans, quiet_make_forward_solution with quiet]
         end.
  unfold fwd_fname, trans_fname.
  split; [done|]. split; [|congruence].
  repeat match goal with E : fs _ = _ |- _ => rewrite E; clear E end.
  repeat match goal with E : clock _ = _ |- _ => rewrite E; clear E end.
  reflexivity.
Qed.

Lemma elem_of_locations p (files : gmap string Loc) :
  p ∈ locations files ↔ ∃ k l, files !! k = Some l ∧ fspath l = p.
Proof.
  unfold locations. rewrite list_elem_of_fmap. split.
  - intros (l & -> & Hl). apply list_elem_of_fmap in Hl as ([k l'] & -> & Hkl).
    apply elem_of_map_to_list in Hkl. eauto.
  - intros (k & l & Hkl & <-). exists l. split; [done|].
    apply list_elem_of_fmap. exists (k, l). split; [done|].
    by apply elem_of_map_to_list.
Qed.

Lemma out_locations cfg subject session o :
  o ∈ locations (out_files_forward cfg subject session) →
  o = trans_fname cfg subject session ∨ o = fwd_fname cfg subject session.
Proof.
  rewrite elem_of_locations. intros (k & l & Hk & <-).
  unfold out_files_forward in Hk.
  apply lookup_insert_Some in Hk as [[_ <-]|[_ Hk]]; [by right|].
  apply lookup_insert_Some in Hk as [[_ <-]|[_ Hk]]; [by left|].
  by rewrite lookup_empty in Hk.
Qed.




Section Helpers.
Variable bem_cond : Cfg → option (list string) * string.
Variable meg_in : list string → bool.


End Helpers.


Section Resolution.
Variable bem_cond : Cfg → option (list string) * string.

(** In the model the resolver returns, in any world, the mapping the
    snapshot determines. *)
Lemma get_input_fnames_forward_returns cfg subject session g1 g2 w1 w2 :
  ∃ in_files,
    get_input_fnames_forward bem_cond cfg subject session g1 w1
      = (Ok in_files, w1)
    ∧ get_input_fnames_forward bem_cond cfg subject session g2 w2
      = (Ok in_files, w2).
Proof. eexists. split; reflexivity. Qed.


End Resolution.

Lemma ignores_bind {G A B} (m : M G A) (k : A → M G B) :
  ignores_globals m → (∀ a, ignores_globals (k a)) →
  ignores_globals (bind m k).
Proof.
  intros Hm Hk g1 g2 w. unfold bind. rewrite (Hm g1 g2 w).
  destruct (m g2 w) as [[a|e] w1]; [apply Hk|done].
Qed.

Lemma ignores_pop {G} key d : ignores_globals (G := G) (pop key d).
Proof. unfold pop. destruct (d !! key); done. Qed.

Lemma ignores_prepare_trans_template cfg info :
  ignores_globals (_prepare_trans_template cfg info).
Proof.
  unfold _prepare_trans_template.
  destruct (use_template_mri cfg); [|done].
  repeat case_match; done.
Qed.

Lemma ignores_make_forward_solution {G} info trans src bem mindist :
  ignores_globals (G := G) (make_forward_solution info trans src bem mindist).
Proof.
  unfold make_forward_solution.
  repeat (apply ignores_bind; [|intros _]); try done.
  destruct trans; done.
Qed.

(** When a template MRI is used, [run_forward] reads no module global: the
    snapshot and the resolved inputs determine what it does. *)
Lemma run_forward_template_ignores_globals meg_in cfg subject session
    in_files t :
  use_template_mri cfg = Some t →
  ignores_globals (run_forward meg_in cfg subject session in_files).
Proof.
  intros Ht. unfold run_forward. rewrite Ht.
  apply ignores_bind; [apply ignores_pop|intros p1].
  apply ignores_bind; [done|intros _].
  apply ignores_bind; [apply ignores_pop|intros p2].
  apply ignores_bind; [apply ignores_pop|intros p3].
  apply ignores_bind; [apply ignores_prepare_trans_template|intros trans].
  apply ignores_bind; [done|intros _].
  apply ignores_bind; [apply ignores_make_forward_solution|intros _].
  repeat (apply ignores_bind; [done|intros _]). done.
Qed.

(** C5 (the code departs from the claim): [_prepare_trans] reads
    [config.mri_t1_path_generator] and [config.mri_landmarks_kind], which
    [get_config] does not put in the snapshot.  The two studies below give
    the same snapshot for subject 01 and the step gets the same resolved
    inputs in the same world, yet it hands a different [kind] to
    [get_head_mri_trans]. *)
Theorem run_forward_reads_module_globals :
  get_config (Some "01") None study inputs_ready
    = get_config (Some "01") None study_with_landmarks inputs_ready
  ∧ get_config (Some "01") None study inputs_ready = (Ok cfg01, inputs_ready)
  ∧ get_input_fnames_forward bem_conductivity cfg01 "01" None study
      inputs_ready = (Ok in_files01, inputs_ready)
  ∧ trace (run_forward meg_in_ch_types cfg01 "01" None in_files01
             study inputs_ready).2
    ≠ trace (run_forward meg_in_ch_types cfg01 "01" None in_files01
               study_with_landmarks inputs_ready).2
  ∧ is_ok (run_forward meg_in_ch_types cfg01 "01" None in_files01
             study inputs_ready).1 = true
  ∧ is_ok (run_forward meg_in_ch_types cfg01 "01" None in_files01
             study_with_landmarks inputs_ready).1 = true.
Proof.
  split; [reflexivity|]. split; [reflexivity|].
  split; [vm_compute; reflexivity|].
  split; [vm_compute; discriminate|].
  split; vm_compute; reflexivity.
Qed.

Section Step.
Variable bem_cond : Cfg → option (list string) * string.
Variable meg_in : list string → bool.

(** The decorated step, by verdict of the cache decision. *)
Lemma run_forward_failsafe_cases cfg subject session g w in_files :
  get_input_fnames_forward bem_cond cfg subject session g w
    = (Ok in_files, w) →
  run_forward_failsafe bem_cond meg_in cfg subject session g w
  = match decide (fs w) (locations in_files)
            (locations (out_files_forward cfg subject session)) with
    | CURRENT => (Ok (skipped subject session), w)
    | STALE =>
        run "_04_make_forward.py" (mkUnit subject session)
          (fun inputs c => run_forward meg_in c subject session inputs)
          in_files cfg g w
    end.
Proof.
  intros Hr. unfold run_forward_failsafe, failsafe_run.
  rewrite (bind_ok _ _ _ _ _ _ Hr). unfold bind at 1.
  destruct (decide _ _ _); reflexivity.
Qed.

Lemma run_forward_failsafe_total cfg subject session g w :
  ∃ r w', run_forward_failsafe bem_cond meg_in cfg subject session g w
          = (Ok r, w')
          ∧ unit r = mkUnit subject session.
Proof.
  destruct (get_input_fnames_forward_returns bem_cond cfg subject session
              g g w w) as (in_files & Hr & _).
  rewrite (run_forward_failsafe_cases _ _ _ _ _ _ Hr).
  destruct (decide _ _ _).
  - destruct (run_total "_04_make_forward.py" (mkUnit subject session)
                (fun inputs c => run_forward meg_in c subject session inputs)
                in_files cfg g w) as (r & w' & E & U & _).
    eauto.
  - eauto.
Qed.

(** [main] returns, with one record per unit in the order of the units. *)
Lemma main_total g w :
  ∃ logs w', main bem_cond meg_in g w = (Ok logs, w')
    ∧ (PipelineConfig.run_source_estimation g = true →
       unit <$> logs
       = (fun u => mkUnit u.1 u.2)
           <$> list_prod (PipelineConfig.get_subjects g)
                         (PipelineConfig.get_sessions g)).
Proof.
  unfold main, asks, bind at 1.
  destruct (PipelineConfig.run_source_estimation g); simpl.
  - unfold units, bind at 1, ask, bind at 1, ret, dispatch.
    edestruct (map_M_total (G := Globals)
      (fun u : string * option string =>
         cfg <- get_config (Some u.1) None ;;
         run_forward_failsafe bem_cond meg_in cfg u.1 u.2)
      (fun u r => unit r = mkUnit u.1 u.2)
      (list_prod (PipelineConfig.get_subjects g)
                 (PipelineConfig.get_sessions g))) as (rs & w' & E & HF).
    + intros u g0 w0. unfold bind, get_config, ask, ret.
      apply run_forward_failsafe_total.
    + exists rs, w'. split; [exact E|]. intros _.
      apply list_eq_Forall2, Forall2_fmap.
      eapply Forall2_flip, Forall2_impl; [exact HF|]. done.
  - eexists _, _. split; [reflexivity|discriminate].
Qed.

(** After a successful forward run the declared outputs are current, so
    the next run of the unit is skipped. *)
Lemma forward_rerun_skipped cfg subject session g w in_files r w1 :
  get_input_fnames_forward bem_cond cfg subject session g w
    = (Ok in_files, w) →
  world_wf w →
  (∀ i o, i ∈ locations in_files →
          o ∈ locations (out_files_forward cfg subject session) → i ≠ o) →
  run_forward_failsafe bem_cond meg_in cfg subject session g w = (Ok r, w1) →
  status r = SUCCESS →
  run_forward_failsafe bem_cond meg_in cfg subject session g w1
  = (Ok (skipped subject session), w1).
Proof.
  intros Hr Hwf Hdisj Hrun Hs.
  rewrite (run_forward_failsafe_cases _ _ _ _ _ _ Hr) in Hrun.
  destruct (decide (fs w) _ _).
  2:{ injection Hrun as <- <-. discriminate. }
  destruct (run_total "_04_make_forward.py" (mkUnit subject session)
              (fun inputs c => run_forward meg_in c subject session inputs)
              in_files cfg g w) as (r' & w' & E & _ & Hcase).
  rewrite E in Hrun. injection Hrun as <- <-.
  destruct (run_forward meg_in cfg subject session in_files g w)
    as [[out|e] wb] eqn:Eb; simpl in Hcase.
  2:{ destruct Hcase as [Hf _]. congruence. }
  destruct Hcase as (_ & _ & ->).
  apply run_forward_ok in Eb as (_ & Hfs & Hck).
  assert (get_input_fnames_forward bem_cond cfg subject session g wb
          = (Ok in_files, wb)) as Hr'.
  { destruct (get_input_fnames_forward_returns bem_cond cfg subject session
                g g w wb) as (m & H1 & H2). congruence. }
  rewrite (run_forward_failsafe_cases _ _ _ _ _ _ Hr').
  assert (decide (fs wb) (locations in_files)
            (locations (out_files_forward cfg subject session)) = CURRENT)
    as ->; [|done].
  apply decide_spec. intros o Ho.
  assert (∀ i t_in, i ∈ locations in_files →
            Os.mtime (fs wb) i = Some t_in → t_in ≤ clock w) as Hin.
  { intros i t_in Hi. pose proof (Hdisj i _ Hi Ho) as Hne.
    unfold Os.mtime. rewrite Hfs.
    assert (i ≠ fwd_fname cfg subject session) as N1.
    { apply (Hdisj _ _ Hi), elem_of_locations.
      exists "forward", (LBids (update (step_bids_path cfg subject session)
                                       [(Esuffix, Some "fwd")])).
      split; [apply lookup_insert_eq|reflexivity]. }
    assert (i ≠ trans_fname cfg subject session) as N2.
    { apply (Hdisj _ _ Hi), elem_of_locations.
      exists "trans", (LBids (update (step_bids_path cfg subject session)
                                     [(Esuffix, Some "trans")])).
      split; [|reflexivity]. unfold out_files_forward.
      rewrite lookup_insert_ne by done. apply lookup_insert_eq. }
    rewrite !lookup_insert_ne by done. apply Hwf. }
  assert (∃ t_out, Os.mtime (fs wb) o = Some t_out ∧ clock w ≤ t_out)
    as (t_out & Hout & Hle).
  { unfold Os.mtime. rewrite Hfs.
    apply out_locations in Ho as [-> | ->].
    - destruct (base.decide (fwd_fname cfg subject session
                             = trans_fname cfg subject session)) as [Eq|Ne].
      + rewrite Eq, lookup_insert_eq. eauto.
      + rewrite lookup_insert_ne, lookup_insert_eq by done. eauto.
    - rewrite lookup_insert_eq. eauto. }
  exists t_out. split; [done|].
  intros i Hi t Ht. specialize (Hin i t Hi Ht). lia.
Qed.

End Step.

End ForwardFacts.

(** ** Strings and file names *)

Module StringFacts.

Lemma str_app_assoc (a b c : string) : (a +:+ b) +:+ c = a +:+ (b +:+ c).
Proof.
  induction a as [|x a IH]; [done|].
  unfold String.append; fold String.append. by rewrite IH.
Qed.

Lemma str_app_nil_r (a : string) : a +:+ "" = a.
Proof.
  induction a as [|x a IH]; [done|].
  unfold String.append; fold String.append. by rewrite IH.
Qed.

Lemma str_app_cons (x : ascii) (a b : string) :
  String x a +:+ b = String x (a +:+ b).
Proof. done. Qed.

Lemma str_rev_app_spec (a b : string) :
  String.rev_app a b = String.rev a +:+ b.
Proof.
  unfold String.rev. revert b. induction a as [|x a IH]; intros b; [done|].
  simpl. rewrite (IH (String x "")), IH, str_app_assoc. done.
Qed.

Lemma str_rev_cons (x : ascii) (a : string) :
  String.rev (String x a) = String.rev a +:+ String x "".
Proof. unfold String.rev at 1. simpl. apply str_rev_app_spec. Qed.

Lemma str_rev_app (a b : string) :
  String.rev (a +:+ b) = String.rev b +:+ String.rev a.
Proof.
  induction a as [|x a IH].
  - by rewrite str_app_nil_r.
  - rewrite str_app_cons, !str_rev_cons, IH, str_app_assoc. done.
Qed.

Lemma str_rev_involutive (a : string) : String.rev (String.rev a) = a.
Proof.
  induction a as [|x a IH]; [done|].
  rewrite str_rev_cons, str_rev_app, IH. done.
Qed.

(** [os.path.splitext] on a name that ends in [c.fif], [c] being neither a
    dot nor a separator: the extension is [.fif], the root is the rest. *)
Lemma splitext_fif (q : string) (c : ascii) :
  c ≠ "/"%char → c ≠ "."%char →
  Os.splitext (q +:+ String c ".fif") = (q +:+ String c "", ".fif").
Proof.
  intros H1 H2. unfold Os.splitext.
  rewrite str_rev_app. simpl.
  change (String.rev (String c ".fif")) with
    (String.rev_app (String c ".fif") "").
  simpl.
  rewrite !str_app_cons. simpl.
  rewrite bool_decide_eq_false_2 by done.
  rewrite bool_decide_eq_false_2 by done.
  change ("" +:+ String.rev q) with (String.rev q).
  by rewrite str_rev_cons, str_rev_involutive.
Qed.

End StringFacts.

(** ** More on [04-make_epochs.py] *)

Module EpochsRun.
Import Config Epochs Scenario Pre StringFacts EpochsFacts.

Lemma read_file_spec {G} what p (g : G) w :
  Os.read_file what p g w
  = (match read_error (fs w) p with Some e => Raise e | None => Ok tt end,
     emit (EvRead what p) w).
Proof.
  unfold Os.read_file, read_error. by destruct (fs w !! p) as [[|t []]|].
Qed.

Lemma readable_no_error f p : readable f p = true ↔ read_error f p = None.
Proof.
  unfold readable, read_error. destruct (f !! p) as [[|t []]|]; naive_solver.
Qed.

(** One pass of the loop over the runs: the recording is read, then the
    events; the first reader that fails ends the pass. *)
Lemma load_run_spec s subject acc run w :
  ∃ w1, fs w1 = fs w ∧
    load_run subject (Os.join (meg_dir s) subject) acc run s w
    = (match read_error (fs w) (raw_fname s subject run) with
       | Some e => Raise e
       | None =>
           match read_error (fs w) (eve_fname s subject run) with
           | Some e => Raise e
           | None => Ok (acc.1 ++ [raw_fname s subject run],
                         acc.2 ++ [eve_fname s subject run])
           end
       end, w1).
Proof.
  unfold load_run, bind, asks, log_event, ret. simpl.
  rewrite !read_file_spec. simpl.
  fold (raw_fname s subject run). fold (eve_fname s subject run).
  destruct (read_error (fs w) (raw_fname s subject run));
    [eexists; split; [|reflexivity]; done|].
  destruct (read_error (fs w) (eve_fname s subject run));
    eexists; (split; [|reflexivity]); done.
Qed.

Lemma load_runs_spec s subject rs acc w r w1 :
  for_each rs (load_run subject (Os.join (meg_dir s) subject)) acc s w
    = (r, w1) →
  fs w1 = fs w ∧
  match r with
  | Ok v =>
      v = (acc.1 ++ (raw_fname s subject <$> rs),
           acc.2 ++ (eve_fname s subject <$> rs))
      ∧ ∀ run, run ∈ rs →
          read_error (fs w) (raw_fname s subject run) = None
          ∧ read_error (fs w) (eve_fname s subject run) = None
  | Raise e =>
      ∃ run, run ∈ rs ∧
        (read_error (fs w) (raw_fname s subject run) = Some e
         ∨ read_error (fs w) (eve_fname s subject run) = Some e)
  end.
Proof.
  revert acc w. induction rs as [|x rs IH]; intros acc w; simpl.
  - intros [= <- <-]. split; [done|]. rewrite !app_nil_r.
    split; [by destruct acc|]. intros run Hr. by apply elem_of_nil in Hr.
  - unfold bind at 1.
    destruct (load_run_spec s subject acc x w) as (wa & Fa & ->).
    destruct (read_error (fs w) (raw_fname s subject x)) as [e1|] eqn:E1.
    { intros [= <- <-]. split; [done|]. exists x. split; [left|]; auto. }
    destruct (read_error (fs w) (eve_fname s subject x)) as [e2|] eqn:E2.
    { intros [= <- <-]. split; [done|]. exists x. split; [left|]; auto. }
    intros H. apply IH in H as [F H]. rewrite Fa in F, H. split; [done|].
    destruct r as [v|e].
    + destruct H as [-> Hall]. simpl. rewrite <- !app_assoc. split; [done|].
      intros run [->|Hr]%elem_of_cons; auto.
    + destruct H as (run & Hr & H). exists run. split; [by right|done].
Qed.

Lemma elem_of_epochs_inputs s subject p :
  p ∈ epochs_inputs s subject ↔
  ∃ run, run ∈ runs s
         ∧ (p = raw_fname s subject run ∨ p = eve_fname s subject run).
Proof.
  unfold epochs_inputs. rewrite list_elem_of_In, in_flat_map.
  setoid_rewrite <- list_elem_of_In.
  split; intros (run & Hr & Hp); exists run; (split; [done|]).
  - rewrite !elem_of_cons, elem_of_nil in Hp.
    destruct Hp as [->|[->|[]]]; auto.
  - rewrite !elem_of_cons, elem_of_nil. destruct Hp as [->| ->]; auto.
Qed.

(** What the reading and epoching part of [run_epochs] comes to where the
    computations of [mne] accept the recordings: it returns when there is
    a run and every recording and events file can be read; it raises the
    error of a reader on one of these files, or the [ValueError] of
    [concatenate_raws] when no run is configured. *)
Lemma load_and_epoch_spec s subject w r w1 :
  load_and_epoch subject s w = (r, w1) →
  fs w1 = fs w ∧ clock w1 = clock w ∧
  match r with
  | Ok _ =>
      runs s ≠ []
      ∧ ∀ p, p ∈ epochs_inputs s subject → read_error (fs w) p = None
  | Raise e =>
      (runs s = []
       ∧ e = ValueError "not enough values to unpack (expected 2, got 0)")
      ∨ ∃ p, p ∈ epochs_inputs s subject ∧ read_error (fs w) p = Some e
  end.
Proof.
  intros H.
  destruct (quiet_run _ _ _ _ _ (quiet_load_and_epoch subject) H)
    as (F & C & _).
  split; [done|]. split; [done|].
  unfold load_and_epoch, asks, log_event in H.
  unfold bind at 1 2 3 4 in H. simpl in H.
  unfold bind at 1 in H.
  destruct (for_each _ _ _ _ _) as [rl wl] eqn:El.
  apply load_runs_spec in El as [Fl El]. simpl in Fl.
  destruct rl as [v|e].
  - destruct El as [-> Hall]. simpl in H.
    destruct (runs s) as [|run rs] eqn:Er.
    + simpl in H. injection H as <- <-. left. done.
    + simpl in H. destruct r as [u|e]; [|exfalso].
      * split; [done|]. intros p (run' & Hr & [-> | ->])%elem_of_epochs_inputs;
          rewrite Er in Hr; by apply Hall.
      * revert H. unfold bind, ret. simpl.
        destruct (bool_decide _); simpl; discriminate.
  - injection H as <- <-. right.
    destruct El as (run & Hr & [Hraw|Heve]); eexists; (split; [|done]);
      apply elem_of_epochs_inputs; eauto.
Qed.

Lemma write_file_spec {G} ov what p (g : G) w :
  Os.write_file ov what p g w
  = match write_error ov (fs w) p with
    | Some e => (Raise e, emit (EvWrite what p) w)
    | None => (Ok tt, mkWorld (<[p := File (clock w) true]> (fs w))
                              (S (clock w)) (trace w ++ [EvWrite what p]))
    end.
Proof.
  unfold Os.write_file, write_error.
  destruct (fs w !! p) as [[|t b]|]; by destruct ov.
Qed.

(** What the writing part of [run_epochs] comes to. *)
Lemma save_and_plot_spec ov s subject w r w1 :
  save_and_plot ov subject s w = (r, w1) →
  match write_error ov (fs w) (epochs_fname s subject) with
  | Some e => r = Raise e ∧ fs w1 = fs w ∧ clock w1 = clock w
  | None =>
      r = Ok tt
      ∧ fs w1 = <[epochs_fname s subject := File (clock w) true]> (fs w)
      ∧ clock w1 = S (clock w)
  end.
Proof.
  unfold save_and_plot, asks, log_event.
  unfold bind at 1 2 3 4. simpl. rewrite write_file_spec. simpl.
  destruct (write_error ov (fs w) (epochs_fname s subject)) as [e|].
  - by intros [= <- <-].
  - unfold bind, ret. simpl. destruct (plot s); by intros [= <- <-].
Qed.

(** [run_epochs] acts on one name only: the epochs file of its subject. *)
Lemma run_epochs_fs ov s subject w r w1 :
  run_epochs ov subject s w = (r, w1) →
  ∀ p, p ≠ epochs_fname s subject → fs w1 !! p = fs w !! p.
Proof.
  unfold run_epochs, bind.
  destruct (load_and_epoch subject s w) as [rl wl] eqn:El.
  apply load_and_epoch_spec in El as (Fl & Cl & _).
  destruct rl as [[]|e]; [|intros [= <- <-] p _; by rewrite Fl].
  intros Es. apply save_and_plot_spec in Es. rewrite Fl in Es.
  destruct (write_error ov (fs w) (epochs_fname s subject));
    destruct Es as (_ & -> & _); intros p Hp; [done|].
  by rewrite lookup_insert_ne.
Qed.


(** X1: a run of [run_epochs] that returns has found at least one run
    configured, the recording and the events file of every run readable,
    and the name of the epochs file free to be written: not taken by a
    directory, and not taken at all where [epochs.save] refuses to replace
    what exists; the epochs file is then on disk, stamped with the time of
    the call. *)
Theorem run_epochs_returns_only_if ov s subject w u w1 :
  run_epochs ov subject s w = (Ok u, w1) →
  runs s ≠ []
  ∧ (∀ p, p ∈ epochs_inputs s subject → readable (fs w) p = true)
  ∧ fs w !! epochs_fname s subject ≠ Some Dir
  ∧ (ov = false → fs w !! epochs_fname s subject = None)
  ∧ fs w1 = <[epochs_fname s subject := File (clock w) true]> (fs w)
  ∧ readable (fs w1) (epochs_fname s subject) = true.
Proof.
  unfold run_epochs. intros H.
  apply bind_inv in H as [(a & wl & El & Es)|(e & _ & [=])].
  apply load_and_epoch_spec in El as (Fl & Cl & Hr & Hin).
  apply save_and_plot_spec in Es. rewrite Fl, Cl in Es.
  unfold write_error in Es.
  destruct (fs w !! epochs_fname s subject) as [[|t b]|] eqn:E.
  - destruct Es as ([=] & _).
  - destruct ov; [|destruct Es as ([=] & _)].
    destruct Es as (_ & F & _).
    repeat split; try done.
    + intros p Hp. by apply readable_no_error, Hin.
    + unfold readable. by rewrite F, lookup_insert_eq.
  - destruct Es as (_ & F & _).
    repeat split; try done.
    + intros p Hp. by apply readable_no_error, Hin.
    + unfold readable. by rewrite F, lookup_insert_eq.
Qed.

Lemma run_epochs_returns_only_if_witness :
  readable (fs recordings_ready) "data/MEG/SB01/SB01_Localizer_sss_raw.fif"
  = true
  ∧ readable (fs (run_epochs true "SB01" two_subjects recordings_ready).2)
      "data/MEG/SB01/SB01_Localizer-epo.fif" = true.
Proof.
  destruct (run_epochs_returns_only_if true two_subjects "SB01"
              recordings_ready tt
              (run_epochs true "SB01" two_subjects recordings_ready).2)
    as (_ & Hin & _ & _ & _ & Hout).
  - vm_compute. reflexivity.
  - split; [|exact Hout]. apply Hin.
    apply (bool_decide_unpack _). vm_compute. exact I.
Defined.



End EpochsRun.

(** ** [04-make_epochs.py]: file names and the files a run touches *)

Module EpochsFiles.
Import Config Epochs Scenario MoreScenarios Pre StringFacts EpochsFacts EpochsRun.

(** [os.path.join] keeps its second argument as the end of the result. *)
Lemma join_suffix a b : ∃ pre, Os.join a b = pre +:+ b.
Proof.
  unfold Os.join. destruct (String.prefix "/" b); [by exists ""|].
  case_bool_decide; [by exists ""|].
  destruct (String.prefix "/" (String.rev a)); [by exists a|].
  exists (a +:+ "/"). by rewrite str_app_assoc.
Qed.

(** The name of a recording: some directory part, then subject, study name
    and run, then the tag of the preprocessing and [.fif]. *)
Lemma raw_fname_shape s subject run :
  ∃ stem, raw_fname s subject run
          = stem +:+ (if use_maxwell_filter s then "_sss_raw.fif"
                      else "_filt_raw.fif").
Proof.
  unfold raw_fname, base_fname.
  destruct (join_suffix (Os.join (meg_dir s) subject)
              (subject +:+ "_" +:+ study_name s +:+
               (if use_maxwell_filter s then run +:+ "_sss_raw"
                else run +:+ "_filt_raw") +:+ ".fif")) as [pre ->].
  exists (pre +:+ subject +:+ "_" +:+ study_name s +:+ run).
  destruct (use_maxwell_filter s); by rewrite !str_app_assoc.
Qed.

Lemma epochs_fname_shape s subject :
  ∃ stem, epochs_fname s subject = stem +:+ "-epo.fif".
Proof.
  unfold epochs_fname, base_fname.
  destruct (join_suffix (Os.join (meg_dir s) subject)
              (subject +:+ "_" +:+ study_name s +:+ "-epo" +:+ ".fif"))
    as [pre ->].
  exists (pre +:+ subject +:+ "_" +:+ study_name s).
  by rewrite !str_app_assoc.
Qed.

(** The events file of a run: the name of the recording with its [.fif]
    replaced by [-eve.fif]. *)
Lemma eve_fname_shape s subject run :
  ∃ stem,
    raw_fname s subject run
    = stem +:+ (if use_maxwell_filter s then "_sss_raw.fif"
                else "_filt_raw.fif")
    ∧ eve_fname s subject run
      = stem +:+ (if use_maxwell_filter s then "_sss_raw-eve.fif"
                  else "_filt_raw-eve.fif").
Proof.
  unfold eve_fname. destruct (raw_fname_shape s subject run) as [stem E].
  exists stem. split; [done|]. rewrite E.
  destruct (use_maxwell_filter s).
  - change "_sss_raw.fif" with ("_sss_ra" +:+ String "w" ".fif").
    rewrite <- (str_app_assoc stem), splitext_fif by done. simpl.
    by rewrite !str_app_assoc.
  - change "_filt_raw.fif" with ("_filt_ra" +:+ String "w" ".fif").
    rewrite <- (str_app_assoc stem), splitext_fif by done. simpl.
    by rewrite !str_app_assoc.
Qed.

(** X4: line 44: the events file of a run is named after its recording,
    with [.fif] replaced by [-eve.fif], whatever dots and separators the
    study path, the subject, the study name or the run contain. *)
Theorem eve_fname_spec s subject run :
  ∃ root, raw_fname s subject run = root +:+ ".fif"
          ∧ eve_fname s subject run = root +:+ "-eve.fif".
Proof.
  destruct (eve_fname_shape s subject run) as (stem & -> & ->).
  destruct (use_maxwell_filter s).
  - exists (stem +:+ "_sss_raw"). by rewrite !str_app_assoc.
  - exists (stem +:+ "_filt_raw"). by rewrite !str_app_assoc.
Qed.

Lemma str_app_inv_tail (a b t1 t2 : string) :
  a +:+ t1 = b +:+ t2 → String.rev t1 +:+ String.rev a
                        = String.rev t2 +:+ String.rev b.
Proof. intros H. apply (f_equal String.rev) in H. by rewrite !str_rev_app in H. Qed.

(** The epochs file of a subject is never the recording or the events file
    of a run, of this or any other subject. *)
Lemma epochs_fname_not_input s x y p :
  p ∈ epochs_inputs s y → epochs_fname s x ≠ p.
Proof.
  intros (run & _ & Hp)%elem_of_epochs_inputs.
  destruct (epochs_fname_shape s x) as [st ->].
  destruct Hp as [-> | ->].
  - destruct (raw_fname_shape s y run) as [st' ->].
    intros H%str_app_inv_tail. revert H.
    change (String.rev "-epo.fif") with "fif.ope-".
    destruct (use_maxwell_filter s).
    + change (String.rev "_sss_raw.fif") with "fif.war_sss_".
      rewrite !str_app_cons. discriminate.
    + change (String.rev "_filt_raw.fif") with "fif.war_tlif_".
      rewrite !str_app_cons. discriminate.
  - destruct (eve_fname_shape s y run) as (st' & _ & ->).
    intros H%str_app_inv_tail. revert H.
    change (String.rev "-epo.fif") with "fif.ope-".
    destruct (use_maxwell_filter s).
    + change (String.rev "_sss_raw-eve.fif") with "fif.eve-war_sss_".
      rewrite !str_app_cons. discriminate.
    + change (String.rev "_filt_raw-eve.fif") with "fif.eve-war_tlif_".
      rewrite !str_app_cons. discriminate.
Qed.

(** X5: [run_epochs] acts on one name only, the epochs file of its
    subject; in particular no run, returning or raising, replaces or
    removes a recording or an events file of any subject. *)
Theorem run_epochs_keeps_recordings ov s subject w r w1 :
  run_epochs ov subject s w = (r, w1) →
  (∀ p, p ≠ epochs_fname s subject → fs w1 !! p = fs w !! p)
  ∧ (∀ y p, p ∈ epochs_inputs s y → fs w1 !! p = fs w !! p).
Proof.
  intros H. pose proof (run_epochs_fs _ _ _ _ _ _ H) as Hf.
  split; [done|]. intros y p Hp. apply Hf. intros ->.
  by eapply epochs_fname_not_input.
Qed.

Lemma run_epochs_keeps_recordings_witness :
  fs (run_epochs true "SB01" two_subjects recordings_ready).2
    !! "data/MEG/SB01/SB01_Localizer_sss_raw.fif" = Some (File 1 true).
Proof.
  destruct (run_epochs_keeps_recordings true two_subjects "SB01"
              recordings_ready
              (run_epochs true "SB01" two_subjects recordings_ready).1
              (run_epochs true "SB01" two_subjects recordings_ready).2)
    as [_ H].
  - by destruct (run_epochs true "SB01" two_subjects recordings_ready).
  - rewrite (H "SB01" "data/MEG/SB01/SB01_Localizer_sss_raw.fif").
    + vm_compute. reflexivity.
    + apply (bool_decide_unpack _). vm_compute. exact I.
Defined.

(** X3: no run configured: [run_epochs] does not return, it raises in
    [mne.concatenate_raws], having read, computed and written nothing. *)
Theorem run_epochs_no_runs ov s subject w :
  runs s = [] →
  ∃ e w1, run_epochs ov subject s w = (Raise e, w1)
    ∧ fs w1 = fs w ∧ no_work w w1 = true.
Proof.
  intros Hr. unfold run_epochs, load_and_epoch, bind, asks, log_event.
  rewrite Hr. simpl. eexists _, _. split; [reflexivity|]. split; [done|].
  unfold no_work, added. simpl.
  rewrite <- !app_assoc, drop_app_length. done.
Qed.

Lemma run_epochs_no_runs_witness :
  is_ok (run_epochs true "SB01" no_runs recordings_ready).1 = false.
Proof.
  destruct (run_epochs_no_runs true no_runs "SB01" recordings_ready)
    as (e & w1 & E & _).
  - reflexivity.
  - rewrite E. reflexivity.
Defined.

Lemma map_M_run_epochs_fs ov s xs w r w1 :
  map_M (run_epochs ov) xs s w = (r, w1) →
  (∀ p, (∀ x, x ∈ xs → p ≠ epochs_fname s x) → fs w1 !! p = fs w !! p)
  ∧ (is_ok r = true →
     ∀ x, x ∈ xs → ∃ t, fs w1 !! epochs_fname s x = Some (File t true)).
Proof.
  revert w r w1. induction xs as [|x xs IH]; intros w r w1; simpl.
  - intros [= <- <-]. split; [done|]. intros _ y Hy.
    by apply elem_of_nil in Hy.
  - unfold bind at 1.
    destruct (run_epochs ov x s w) as [rx wx] eqn:Ex.
    pose proof (run_epochs_fs _ _ _ _ _ _ Ex) as Fx.
    destruct rx as [[]|e].
    + unfold bind at 1.
      destruct (map_M (run_epochs ov) xs s wx) as [rr wr] eqn:Er.
      apply IH in Er as [Fr Hr].
      apply run_epochs_ok in Ex as (Fe & _).
      destruct rr as [ys|e]; intros [= <- <-]; (split; [|intros Hok]).
      * intros p Hp. rewrite Fr, Fx; [done|..].
        -- apply Hp, list_elem_of_here.
        -- intros y Hy. by apply Hp, list_elem_of_further.
      * intros y [->|Hy]%elem_of_cons; [|by apply Hr].
        destruct (base.decide (epochs_fname s x ∈ epochs_fname s <$> xs))
          as [(z & -> & Hz)%list_elem_of_fmap|Hn]; [by apply Hr|].
        rewrite Fr, Fe, lookup_insert_eq; [eauto|].
        intros z Hz E. apply Hn. rewrite E. by apply list_elem_of_fmap_2.
      * intros p Hp. rewrite Fr, Fx; [done|..].
        -- apply Hp, list_elem_of_here.
        -- intros y Hy. by apply Hp, list_elem_of_further.
      * done.
    + intros [= <- <-]. split; [|done].
      intros p Hp. apply Fx, Hp, list_elem_of_here.
Qed.

(** X6: the batch acts on the epochs files of the listed subjects only,
    keeps every recording and events file, and, when it returns, has left a
    readable epochs file for every listed subject, the excluded ones
    included. *)
Theorem batch_files ov s w r w1 :
  batch ov s w = (r, w1) →
  (∀ p, (∀ x, x ∈ subjects_list s → p ≠ epochs_fname s x) →
        fs w1 !! p = fs w !! p)
  ∧ (∀ y p, p ∈ epochs_inputs s y → fs w1 !! p = fs w !! p)
  ∧ (is_ok r = true →
     ∀ x, x ∈ subjects_list s →
          ∃ t, fs w1 !! epochs_fname s x = Some (File t true)).
Proof.
  unfold batch, units, asks, bind at 1. intros H.
  apply map_M_run_epochs_fs in H as [F Hok].
  split; [done|]. split; [|done].
  intros y p Hp. apply F. intros x _ ->. by eapply epochs_fname_not_input.
Qed.

Lemma batch_files_witness :
  ∃ t, fs (batch true two_subjects recordings_ready).2
         !! epochs_fname two_subjects "SB02" = Some (File t true).
Proof.
  destruct (batch_files true two_subjects recordings_ready
              (batch true two_subjects recordings_ready).1
              (batch true two_subjects recordings_ready).2)
    as (_ & _ & H).
  - by destruct (batch true two_subjects recordings_ready).
  - apply H.
    + vm_compute. reflexivity.
    + apply (bool_decide_unpack _). vm_compute. exact I.
Defined.

End EpochsFiles.

(** ** [04-make_epochs.py]: channel selection and pool size *)

Module EpochsChannels.
Import Config Epochs Scenario Pre StringFacts EpochsFacts ConfigFacts.

(** X7: the [meg] argument the epoching step hands to [mne.pick_types] is
    [False] exactly for the channel types the Maxwell-filter check of
    [config.py] rejects; so after a configuration with
    [use_maxwell_filter] that passed its checks, MEG channels are always
    picked, and 'meg' wins over 'grad' and 'mag' when several are listed. *)
Theorem pick_meg_agrees_with_checks s :
  (pick_meg (ch_types s) = MegFalse ↔ no_meg_channels (ch_types s) = true)
  ∧ (∀ w, use_maxwell_filter s = true → is_ok (checks s w).1 = true →
          pick_meg (ch_types s) ≠ MegFalse)
  ∧ ("meg" ∈ ch_types s → pick_meg (ch_types s) = MegTrue).
Proof.
  assert (pick_meg (ch_types s) = MegFalse
          ↔ no_meg_channels (ch_types s) = true) as Hiff.
  { rewrite no_meg_channels_spec. unfold pick_meg.
    repeat case_bool_decide; split; try discriminate; try done; tauto. }
  split; [done|]. split.
  - intros w Hm Hok Hp. apply Hiff in Hp.
    unfold checks, bind, ask, raise in Hok. rewrite Hm, Hp in Hok.
    simpl in Hok. discriminate.
  - intros Hin. unfold pick_meg. by rewrite bool_decide_eq_true_2.
Qed.

(** X8: the pool size of the epoching step for any integer [config.N_JOBS],
    zero and negative values included: never below one, one exactly up to
    seven configured jobs, at most a quarter of the configured number from
    four on, and growing with it. *)
Theorem N_JOBS_any_integer s s' :
  (1 ≤ Epochs.N_JOBS s)%Z
  ∧ (Epochs.N_JOBS s = 1%Z ↔ (Config.N_JOBS s < 8)%Z)
  ∧ ((4 ≤ Config.N_JOBS s)%Z → (4 * Epochs.N_JOBS s ≤ Config.N_JOBS s)%Z)
  ∧ ((Config.N_JOBS s ≤ Config.N_JOBS s')%Z →
     (Epochs.N_JOBS s ≤ Epochs.N_JOBS s')%Z).
Proof.
  unfold Epochs.N_JOBS.
  pose proof (Z.div_mod (Config.N_JOBS s) 4 ltac:(lia)).
  pose proof (Z.mod_pos_bound (Config.N_JOBS s) 4 ltac:(lia)).
  repeat split; try lia.
  intros Hle. pose proof (Z.div_le_mono _ _ 4 ltac:(lia) Hle). lia.
Qed.

End EpochsChannels.

(** ** More on [config.py] *)

Module ConfigLoad.
Import Config Scenario StringFacts ConfigFacts.

(** [os.path.join(a, b)] for a relative, non-empty [b]. *)
Lemma join_relative a b :
  String.prefix "/" b = false →
  Os.join a b
  = (if bool_decide (a = "") then ""
     else if String.prefix "/" (String.rev a) then a else a +:+ "/") +:+ b.
Proof.
  intros Hb. unfold Os.join. rewrite Hb.
  case_bool_decide; [done|].
  destruct (String.prefix "/" (String.rev a)); [done|].
  by rewrite str_app_assoc.
Qed.

Lemma meg_dir_ne_study_path s : meg_dir s ≠ study_path s.
Proof.
  unfold meg_dir. rewrite join_relative by done.
  intros E. apply (f_equal String.length) in E. revert E.
  case_bool_decide as Ha; [rewrite Ha; simpl; discriminate|].
  destruct (String.prefix "/" (String.rev (study_path s)));
    rewrite ?string_length_app; simpl; lia.
Qed.

Lemma meg_dir_ne_subjects_dir s : meg_dir s ≠ subjects_dir s.
Proof.
  unfold meg_dir, subjects_dir. rewrite !join_relative by done.
  intros E. apply String.app_inj in E. discriminate.
Qed.

Section Load.
Variable denied : string → bool.

(** X9: importing [config] never creates or touches the MEG directory the
    scripts read from: whatever the settings and the outcome of the load,
    the entry under [meg_dir] is as before. *)
Theorem load_leaves_meg_dir s w :
  fs (load denied s w).2 !! meg_dir s = fs w !! meg_dir s.
Proof.
  rewrite load_world.
  destruct (make_dirs denied s w) as [r w1] eqn:E. simpl.
  apply make_dirs_fs in E as (_ & F & _).
  apply F; [apply meg_dir_ne_study_path|apply meg_dir_ne_subjects_dir].
Qed.

(** X10: the message of the [ValueError] names the rule that is broken; when
    both rules are broken it is the Maxwell-filter one, which is checked
    first. *)
Theorem checks_message s w msg :
  (checks s w).1 = Raise (ValueError msg) →
  (msg = msg_maxwell
   ∧ use_maxwell_filter s = true ∧ no_meg_channels (ch_types s) = true)
  ∨ (msg = msg_ssp_ica
     ∧ use_ssp s = true ∧ use_ica s = true
     ∧ use_maxwell_filter s && no_meg_channels (ch_types s) = false).
Proof.
  unfold checks, bind, ask, raise, ret.
  destruct (use_maxwell_filter s), (no_meg_channels (ch_types s)),
    (use_ssp s), (use_ica s); simpl; intros [=]; subst; auto.
Qed.

(** X11: a name taken by a regular file blocks the load before the checks are
    reached, whatever the settings: for [study_path] nothing is created;
    for [subjects_dir] the study directory made just before stays. *)
Theorem load_blocked_by_file s w t b :
  (fs w !! study_path s = Some (File t b) →
   ∃ w1, load denied s w = (Raise (FileExistsError (study_path s)), w1)
         ∧ fs w1 = fs w)
  ∧ (can_make denied w (study_path s) →
     fs w !! subjects_dir s = Some (File t b) →
     ∃ w1, load denied s w = (Raise (FileExistsError (subjects_dir s)), w1)
           ∧ fs w1 !! study_path s = Some Dir
           ∧ fs w1 !! subjects_dir s = Some (File t b)).
Proof.
  split.
  - intros Hf. unfold load, make_dirs, mkdir_if_missing, asks, Os.isdir,
      Os.mkdir, bind. simpl.
    rewrite bool_decide_eq_false_2 by congruence. simpl. rewrite Hf.
    eauto.
  - intros Hc Hf. unfold load, make_dirs, asks. unfold bind at 1 2 3.
    destruct (mkdir_if_missing_ok denied (study_path s) s w Hc) as [w1 E1].
    rewrite E1.
    apply mkdir_if_missing_fs in E1 as (_ & F1 & P1 & D1).
    unfold mkdir_if_missing, Os.isdir, Os.mkdir, bind. simpl.
    rewrite (P1 _ _ Hf). simpl. rewrite ?(P1 _ _ Hf). simpl.
    eexists. split; [reflexivity|]. simpl. split; [by apply D1|by apply P1].
Qed.

(** X12: importing [config] a second time (every script of the study imports
    it) finds the directories in place: it calls no [mkdir], leaves the
    world as the first import left it, and comes to the same verdict. *)
Theorem load_twice s w :
  dirs_available denied s w →
  load denied s (load denied s w).2 = load denied s w.
Proof.
  intros Ha.
  destruct (make_dirs_ok denied s w Ha) as (w1 & Hd).
  pose proof (load_world denied s w) as Hw. rewrite Hd in Hw. simpl in Hw.
  pose proof Hd as Hfs. apply make_dirs_fs in Hfs as (_ & _ & _ & D).
  destruct (D eq_refl) as [D1 D2]. rewrite Hw.
  assert (make_dirs denied s w1 = (Ok tt, w1)) as Hd1.
  { unfold make_dirs, mkdir_if_missing, asks, Os.isdir, bind. simpl.
    repeat (rewrite bool_decide_eq_true_2 by done; simpl). done. }
  unfold load.
  by rewrite (bind_ok _ _ _ _ _ _ Hd), (bind_ok _ _ _ _ _ _ Hd1).
Qed.

End Load.

Lemma checks_message_witness :
  (checks ssp_and_ica empty_world).1 = Raise (ValueError msg_ssp_ica).
Proof.
  destruct (checks_message ssp_and_ica empty_world msg_ssp_ica)
    as [(E & _)|(_ & _)].
  - reflexivity.
  - discriminate E.
  - reflexivity.
Defined.

Lemma load_twice_witness :
  load permissive Config.default
    (load permissive Config.default empty_world).2
  = load permissive Config.default empty_world.
Proof.
  apply (load_twice permissive Config.default empty_world).
  split; right; split; reflexivity.
Defined.

End ConfigLoad.

(** ** [04-make_epochs.py]: the order of reads and writes *)

Module EpochsTrace.
Import Config Epochs Scenario MoreScenarios Pre Io StringFacts EpochsFacts
  EpochsRun.

Lemma reads_app a b : reads (a ++ b) = reads a ++ reads b.
Proof. apply omap_app. Qed.

Lemma writes_app a b : writes (a ++ b) = writes a ++ writes b.
Proof. apply omap_app. Qed.

Lemma load_run_trace s subject acc run w v w1 :
  load_run subject (Os.join (meg_dir s) subject) acc run s w = (Ok v, w1) →
  ∃ evs, trace w1 = trace w ++ evs
         ∧ reads evs = [raw_fname s subject run; eve_fname s subject run]
         ∧ writes evs = [].
Proof.
  unfold load_run, bind, asks, log_event, ret. simpl.
  rewrite !read_file_spec. simpl.
  fold (raw_fname s subject run). fold (eve_fname s subject run).
  destruct (read_error (fs w) (raw_fname s subject run)); [discriminate|].
  destruct (read_error (fs w) (eve_fname s subject run)); [discriminate|].
  intros [= _ <-]. simpl. rewrite <- !app_assoc. eexists. split; [done|].
  done.
Qed.

Lemma load_runs_trace s subject rs acc w v w1 :
  for_each rs (load_run subject (Os.join (meg_dir s) subject)) acc s w
    = (Ok v, w1) →
  ∃ evs, trace w1 = trace w ++ evs
         ∧ reads evs
           = flat_map (fun run => [raw_fname s subject run;
                                   eve_fname s subject run]) rs
         ∧ writes evs = [].
Proof.
  revert acc w. induction rs as [|x rs IH]; intros acc w; simpl.
  - intros [= _ <-]. exists []. by rewrite app_nil_r.
  - intros H. apply bind_inv in H as [(a & wa & Hx & H)|(? & _ & [=])].
    apply load_run_trace in Hx as (e1 & T1 & R1 & W1).
    apply IH in H as (e2 & T2 & R2 & W2).
    exists (e1 ++ e2). rewrite T2, T1, <- app_assoc, reads_app, writes_app.
    rewrite R1, R2, W1, W2. done.
Qed.

Lemma load_and_epoch_trace s subject w u w1 :
  load_and_epoch subject s w = (Ok u, w1) →
  ∃ evs, trace w1 = trace w ++ evs
         ∧ reads evs = epochs_inputs s subject ∧ writes evs = [].
Proof.
  intros H. unfold load_and_epoch, asks, log_event in H.
  unfold bind at 1 2 3 4 in H. simpl in H.
  unfold bind at 1 in H.
  destruct (for_each _ _ _ _ _) as [[v|e] wl] eqn:El; [|discriminate].
  apply load_runs_trace in El as (e1 & T1 & R1 & W1). simpl in T1.
  revert H. unfold bind, concatenate_raws, raise, ret, log_event. simpl.
  destruct v.1; [discriminate|].
  destruct (bool_decide ("eeg" ∈ ch_types s)); simpl;
    intros H; apply (f_equal snd) in H; simpl in H; subst w1;
    unfold emit; simpl; rewrite T1, <- !app_assoc;
    (eexists; split; [reflexivity|]);
    simpl; rewrite !reads_app, !writes_app, R1, W1; simpl;
    by rewrite app_nil_r.
Qed.

Lemma save_and_plot_trace ov s subject w u w1 :
  save_and_plot ov subject s w = (Ok u, w1) →
  ∃ pre post, trace w1 = trace w ++ pre ++ [EvWrite "epochs"
                                              (epochs_fname s subject)]
                         ++ post
              ∧ reads pre = [] ∧ writes pre = []
              ∧ reads post = [] ∧ writes post = [].
Proof.
  unfold save_and_plot, asks, log_event.
  unfold bind at 1 2 3 4. simpl. rewrite write_file_spec. simpl.
  destruct (write_error ov (fs w) (epochs_fname s subject)) as [e|];
    [discriminate|].
  unfold bind, ret. simpl. destruct (plot s); intros H;
    apply (f_equal snd) in H; simpl in H; subst w1; unfold emit; simpl;
    rewrite <- ?app_assoc; simpl.
  - eexists [_; _], [_; _]. split; [reflexivity|]. done.
  - eexists [_; _], []. split; [reflexivity|]. done.
Qed.

(** X19: a run of [run_epochs] that returns has opened the recording and
    the events file of every run exactly once, in the order of
    [config.runs], and has written one file, the epochs file, after the
    last of them was read. *)
Theorem run_epochs_reads_then_writes ov s subject w u w1 :
  run_epochs ov subject s w = (Ok u, w1) →
  reads (added w w1) = epochs_inputs s subject
  ∧ writes (added w w1) = [epochs_fname s subject]
  ∧ ∃ before after,
      added w w1
      = before ++ [EvWrite "epochs" (epochs_fname s subject)] ++ after
      ∧ reads before = epochs_inputs s subject ∧ reads after = [].
Proof.
  unfold run_epochs. intros H.
  apply bind_inv in H as [(a & wa & Hl & H)|(? & _ & [=])].
  apply load_and_epoch_trace in Hl as (e1 & T1 & R1 & W1).
  apply save_and_plot_trace in H as (pre & post & T2 & Rp & Wp & Rq & Wq).
  rewrite T1, <- app_assoc in T2. apply added_app in T2. rewrite T2.
  rewrite !reads_app, !writes_app, R1, W1, Rp, Wp, Rq, Wq. simpl.
  rewrite !app_nil_r. split; [done|]. split; [done|].
  exists (e1 ++ pre), post. rewrite <- !app_assoc. split; [done|].
  by rewrite reads_app, R1, Rp, app_nil_r.
Qed.

Lemma run_epochs_reads_then_writes_witness :
  reads (added recordings_ready
           (run_epochs true "SB01" two_subjects recordings_ready).2)
  = ["data/MEG/SB01/SB01_Localizer_sss_raw.fif";
     "data/MEG/SB01/SB01_Localizer_sss_raw-eve.fif"].
Proof.
  destruct (run_epochs_reads_then_writes true two_subjects "SB01"
              recordings_ready tt
              (run_epochs true "SB01" two_subjects recordings_ready).2)
    as (R & _).
  - vm_compute. reflexivity.
  - rewrite R. vm_compute. reflexivity.
Defined.

(** The writing part opens nothing for reading, whatever its outcome. *)
Lemma save_and_plot_reads ov s subject w r w1 :
  save_and_plot ov subject s w = (r, w1) →
  ∃ evs, trace w1 = trace w ++ evs ∧ reads evs = [].
Proof.
  unfold save_and_plot, asks, log_event.
  unfold bind at 1 2 3 4. simpl. rewrite write_file_spec. simpl.
  destruct (write_error ov (fs w) (epochs_fname s subject)) as [e|].
  - intros H. apply (f_equal snd) in H. simpl in H. subst w1.
    unfold emit. simpl. rewrite <- ?app_assoc.
    eexists. split; [reflexivity|done].
  - unfold bind, ret. simpl. destruct (plot s); intros H;
      apply (f_equal snd) in H; simpl in H; subst w1; unfold emit; simpl;
      rewrite <- ?app_assoc; (eexists; split; [reflexivity|done]).
Qed.

(** A run of [run_epochs] that got as far as the writer, whether the
    writer then wrote the epochs file or refused to replace one, has opened
    the recording and the events file of every run, in order, and nothing
    else; there is at least one of them. *)
Lemma run_epochs_reads ov s subject w r w1 :
  run_epochs ov subject s w = (r, w1) →
  is_ok r = true ∨ (∃ q, r = Raise (FileExistsError q)) →
  reads (added w w1) = epochs_inputs s subject
  ∧ epochs_inputs s subject ≠ [].
Proof.
  unfold run_epochs. intros H Hr.
  apply bind_inv in H as [(a & wa & Hl & H)|(e & Hl & Er)]; [|subst r].
  - pose proof (load_and_epoch_spec _ _ _ _ _ Hl) as (_ & _ & Hne & _).
    apply load_and_epoch_trace in Hl as (e1 & T1 & R1 & _).
    apply save_and_plot_reads in H as (e2 & T2 & R2).
    rewrite T1, <- app_assoc in T2. rewrite (added_app _ _ _ T2).
    rewrite reads_app, R1, R2, app_nil_r. split; [done|].
    unfold epochs_inputs. destruct (runs s); [done|discriminate].
  - exfalso. destruct Hr as [Hr|[q Hq]]; [discriminate Hr|].
    injection Hq as ->.
    apply load_and_epoch_spec in Hl as (_ & _ & [[_ Hl]|(p & _ & Hl)]);
      [discriminate Hl|].
    unfold read_error in Hl.
    destruct (fs w !! p) as [[|t []]|]; discriminate Hl.
Qed.

End EpochsTrace.
(** ** More on [_04_make_forward.py] *)

Module ForwardStages.
Import Bids Forward ForwardScenario Pre StringFacts ConfigLoad EpochsRun
  ForwardFacts.


Lemma pop_inv {G} key (d : gmap string Loc) (g : G) w r w1 :
  pop key d g w = (r, w1) →
  w1 = w ∧
  match r with
  | Ok v => d !! key = Some v.1 ∧ v.2 = delete key d
  | Raise e => e = KeyError key ∧ d !! key = None
  end.
Proof.
  unfold pop. destruct (d !! key); intros [= <- <-]; done.
Qed.


Ltac read_steps :=
  repeat (rewrite ?read_file_spec; simpl;
          match goal with
          | |- context [read_error ?f ?p] =>
              let E := fresh "E" in destruct (read_error f p) eqn:E
          end; simpl).


Lemma make_forward_solution_ok {G} info trans src bem mindist (g : G)
    w u w1 :
  make_forward_solution info trans src bem mindist g w = (Ok u, w1) →
  readable (fs w) (fspath src) = true ∧ readable (fs w) (fspath bem) = true
  ∧ ∀ p, trans = TransFile p → readable (fs w) p = true.
Proof.
  rewrite !readable_no_error.
  unfold make_forward_solution, bind, log_event, ret.
  destruct trans as [p| |]; read_steps; intros [= <- <-];
    (split; [done|]); (split; [done|]); intros q [= <-];
    by apply readable_no_error.
Qed.


Section Step.
Variable meg_in : list string → bool.


(** What a returning [run_forward] has found and done. *)
Lemma run_forward_ok_inputs cfg subject session in_files g w out w1 :
  run_forward meg_in cfg subject session in_files g w = (Ok out, w1) →
  ∃ li lb ls,
    in_files !! "info" = Some li ∧ in_files !! "bem" = Some lb
    ∧ in_files !! "src" = Some ls
    ∧ readable (fs w) (fspath li) = true
    ∧ readable (fs w) (fspath lb) = true
    ∧ readable (fs w) (fspath ls) = true.
Proof.
  unfold run_forward. intros H.
  apply bind_inv in H as [(p1 & wa & Hp1 & H)|(e' & _ & [=])].
  apply pop_inv in Hp1 as (-> & Hi & Hd1).
  apply bind_inv in H as [(u & wb & Hr & H)|(e' & _ & [=])].
  rewrite read_file_spec in Hr.
  destruct (read_error (fs w) (fspath p1.1)) as [er|] eqn:Er;
    try discriminate; injection Hr as <- <-.
  apply bind_inv in H as [(p2 & wc & Hp2 & H)|(e' & _ & [=])].
  apply pop_inv in Hp2 as (-> & Hb & Hd2).
  apply bind_inv in H as [(p3 & wd & Hp3 & H)|(e' & _ & [=])].
  apply pop_inv in Hp3 as (-> & Hs & Hd3).
  apply bind_inv in H as [(tr & we & Ht & H)|(e' & _ & [=])].
  apply quiet_run in Ht as (Fe & Ce & _).
  2:{ destruct (use_template_mri cfg);
        auto using quiet_prepare_trans_template, quiet_prepare_trans. }
  simpl in Fe.
  apply bind_inv in H as [(u1 & wf & Hl & H)|(e' & _ & [=])].
  injection Hl as <- <-.
  apply bind_inv in H as [(u2 & wg & Hm & H)|(e' & _ & [=])].
  apply make_forward_solution_ok in Hm as (Rs & Rb & _).
  simpl in Rs, Rb. rewrite Fe in Rs, Rb.
  rewrite Hd1, lookup_delete_ne in Hb by done.
  rewrite Hd2, Hd1, !lookup_delete_ne in Hs by done.
  exists p1.1, p2.1, p3.1. repeat split; try done.
  by apply readable_no_error.
Qed.

End Step.

End ForwardStages.

(** ** [_04_make_forward.py]: the names of the output files *)

Module ForwardNames.
Import Bids Forward ForwardScenario Pre StringFacts ConfigLoad.

Lemma concat_snoc sep l x :
  l ≠ [] → String.concat sep (l ++ [x]) = String.concat sep l +:+ sep +:+ x.
Proof.
  induction l as [|a l IH]; [done|]. intros _.
  destruct l as [|b l]; [done|].
  change (String.concat sep ((a :: b :: l) ++ [x]))
    with (a +:+ sep +:+ String.concat sep ((b :: l) ++ [x])).
  rewrite IH by done.
  change (String.concat sep (a :: b :: l))
    with (a +:+ sep +:+ String.concat sep (b :: l)).
  by rewrite !str_app_assoc.
Qed.

Lemma concat_head sep a l :
  ∃ tail, String.concat sep (a :: l) = a +:+ tail.
Proof.
  destruct l as [|b l].
  - exists "". by rewrite str_app_nil_r.
  - by exists (sep +:+ String.concat sep (b :: l)).
Qed.

(** The file names of the step differ in the suffix only. *)
Lemma step_basename cfg subject session :
  ∃ tail, ∀ x,
    basename (update (step_bids_path cfg subject session)
                     [(Esuffix, Some x)])
    = String "s" (tail +:+ "_" +:+ x +:+ ".fif").
Proof.
  pose (l := [ent "ses" session; ent "task" (task cfg);
              ent "acq" (acq cfg); ent "run" None;
              ent "proc" None; ent "space" (space cfg);
              ent "recording" (rec cfg); ent "split" None]).
  destruct (concat_head "_" ("sub-" +:+ subject) (omap id l)) as [tl Htl].
  exists ("ub-" +:+ subject +:+ tl). intros x.
  assert (basename (update (step_bids_path cfg subject session)
                           [(Esuffix, Some x)])
          = String.concat "_" ((("sub-" +:+ subject) :: omap id l)
                               ++ [x +:+ ".fif"])) as ->.
  { unfold basename. f_equal.
    change ((("sub-" +:+ subject) :: omap id l) ++ [x +:+ ".fif"])
      with (("sub-" +:+ subject)
            :: (omap id l ++ omap id [Some (x +:+ ".fif")])).
    by rewrite <- omap_app. }
  rewrite concat_snoc by done. rewrite Htl.
  change ("sub-" +:+ subject) with (String "s" ("ub-" +:+ subject)).
  cbn [String.append]. fold String.append.
  by rewrite !str_app_assoc.
Qed.

Lemma step_fname_shape cfg subject session :
  ∃ pre, ∀ x,
    fpath (update (step_bids_path cfg subject session) [(Esuffix, Some x)])
    = pre +:+ "_" +:+ x +:+ ".fif".
Proof.
  destruct (step_basename cfg subject session) as [tl Hb].
  pose (d := div (div (div (deriv_root cfg) ("sub-" +:+ subject))
                      (opt_dir "ses-" session))
                 (opt_str (datatype cfg))).
  exists ((if bool_decide (d = "") then ""
           else if String.prefix "/" (String.rev d) then d
                else d +:+ "/") +:+ String "s" tl).
  intros x.
  assert (fpath (update (step_bids_path cfg subject session)
                        [(Esuffix, Some x)])
          = div d (basename (update (step_bids_path cfg subject session)
                                    [(Esuffix, Some x)]))) as -> by done.
  rewrite Hb. unfold div at 1.
  rewrite bool_decide_eq_false_2 by done.
  rewrite join_relative by done.
  rewrite !str_app_assoc. done.
Qed.

Lemma trans_fname_ne_fwd_fname cfg subject session :
  trans_fname cfg subject session ≠ fwd_fname cfg subject session.
Proof.
  unfold trans_fname, fwd_fname.
  destruct (step_fname_shape cfg subject session) as [pre E].
  rewrite !E. intros H%String.app_inj. discriminate.
Qed.

End ForwardNames.

(** ** [_04_make_forward.py]: errors and effects of [run_forward] *)

Module ForwardStep.
Import Bids Forward ForwardScenario MoreScenarios Pre StringFacts ConfigLoad
  EpochsRun ForwardFacts ForwardStages ForwardNames.

Section Step.
Variable bem_cond : Cfg → option (list string) * string.
Variable meg_in : list string → bool.



(** X15: a run of [run_forward] that returns has found 'info', 'bem' and
    'src' among its inputs and read each as a file; it returns the trans
    file and the forward solution, both of which are then on disk, the
    trans file written first; nothing else has changed. *)
Theorem run_forward_success cfg subject session in_files g w out w1 :
  run_forward meg_in cfg subject session in_files g w = (Ok out, w1) →
  dom out = {["trans"; "forward"]}
  ∧ (∀ k l, out !! k = Some l → readable (fs w1) (fspath l) = true)
  ∧ (fspath <$> out !! "trans") = Some (trans_fname cfg subject session)
  ∧ (fspath <$> out !! "forward") = Some (fwd_fname cfg subject session)
  ∧ Os.mtime (fs w1) (trans_fname cfg subject session) = Some (clock w)
  ∧ Os.mtime (fs w1) (fwd_fname cfg subject session) = Some (S (clock w))
  ∧ (∀ p, p ≠ trans_fname cfg subject session →
          p ≠ fwd_fname cfg subject session → fs w1 !! p = fs w !! p)
  ∧ ∃ li lb ls,
      in_files !! "info" = Some li ∧ in_files !! "bem" = Some lb
      ∧ in_files !! "src" = Some ls
      ∧ readable (fs w) (fspath li) = true
      ∧ readable (fs w) (fspath lb) = true
      ∧ readable (fs w) (fspath ls) = true.
Proof.
  intros H. pose proof (run_forward_ok_inputs _ _ _ _ _ _ _ _ _ H) as Hin.
  apply run_forward_ok in H as (-> & F & C).
  pose proof (trans_fname_ne_fwd_fname cfg subject session) as Hne.
  assert (fs w1 !! trans_fname cfg subject session
          = Some (File (clock w) true)) as Ht.
  { by rewrite F, lookup_insert_ne, lookup_insert_eq. }
  assert (fs w1 !! fwd_fname cfg subject session
          = Some (File (S (clock w)) true)) as Hf.
  { by rewrite F, lookup_insert_eq. }
  split.
  { unfold out_files_forward. rewrite !dom_insert_L, dom_empty_L.
    set_solver. }
  split.
  { intros k l Hk. unfold out_files_forward in Hk.
    apply lookup_insert_Some in Hk as [[_ <-]|[_ Hk]].
    - unfold readable.
      change (fspath (LBids _)) with (fwd_fname cfg subject session).
      by rewrite Hf.
    - apply lookup_insert_Some in Hk as [[_ <-]|[_ Hk]]; [|done].
      unfold readable.
      change (fspath (LBids _)) with (trans_fname cfg subject session).
      by rewrite Ht. }
  split; [done|]. split; [done|].
  unfold Os.mtime. rewrite Ht, Hf.
  split; [done|]. split; [done|]. split; [|done].
  intros p H1 H2. by rewrite F, !lookup_insert_ne.
Qed.


End Step.

(** X17: [_prepare_trans_template] fits a coregistration exactly when the
    template is the FreeSurfer subject and [adjust_coreg] is set,
    'fsaverage' included; in every other case it leaves no trace.  It
    never touches the file system. *)
Theorem coregistration_fitted_iff cfg info g w :
  (trace (_prepare_trans_template cfg info g w).2 ≠ trace w
   ↔ use_template_mri cfg = Some (fs_subject cfg) ∧ adjust_coreg cfg = true)
  ∧ (use_template_mri cfg = Some (fs_subject cfg) →
     adjust_coreg cfg = true →
     (_prepare_trans_template cfg info g w).1
     = Ok (TransCoreg (fs_subject cfg) (fs_subjects_dir cfg))
     ∧ added w (_prepare_trans_template cfg info g w).2
       = [EvCompute "Coregistration"
            [info_file info; fs_subject cfg; fs_subjects_dir cfg;
             "fiducials=estimated"];
          EvCompute "fit_fiducials" []])
  ∧ fs (_prepare_trans_template cfg info g w).2 = fs w.
Proof.
  unfold _prepare_trans_template.
  destruct (use_template_mri cfg) as [t|].
  2:{ simpl. split; [|split]; [split|..]; try done. by intros (? & _). }
  case_bool_decide as Ht; simpl.
  2:{ split; [|split]; [split|..]; try done.
      - intros ([= ->] & _). done.
      - intros [= ->]. done. }
  subst t. destruct (adjust_coreg cfg); case_bool_decide; simpl;
    unfold added; simpl;
    rewrite <- ?app_assoc, ?drop_app_length;
    (split; [|split]); try done;
    try (split; [done|by intros (_ & ?)]).
  all: split; [done|]; intros _ E;
    apply (f_equal length) in E; rewrite length_app in E; simpl in E; lia.
Qed.

(** X18: with [mri_t1_path_generator] set and a run configured,
    [_prepare_trans] hands [get_head_mri_trans] the path of the first run
    under the BIDS root, without extension, and the T1 image the generator
    returns for subject and session, where a suffix or a datatype the
    generator left unset becomes 'T1w' or 'anat' and everything it set is
    kept; the file system is not touched. *)
Theorem prepare_trans_t1_defaults cfg bp g w gen run0 rest :
  PipelineConfig.mri_t1_path_generator g = Some gen →
  runs cfg = run0 :: rest →
  let t0 := gen (bids_sub_ses (Bids.subject bp) (Bids.session bp)
                              (Some (bids_root cfg))) in
  ∃ t1 kind w1,
    _prepare_trans cfg bp g w
    = (Ok (TransHeadMri
             (update bp [(Erun, run0); (Eroot, Some (bids_root cfg));
                         (Eextension, None)])
             (Some t1) (fs_subject cfg) (fs_subjects_dir cfg) kind), w1)
    ∧ Bids.suffix t1 = Some (default "T1w" (Bids.suffix t0))
    ∧ Bids.datatype t1 = Some (default "anat" (Bids.datatype t0))
    ∧ update t1 [(Esuffix, None); (Edatatype, None)]
      = update t0 [(Esuffix, None); (Edatatype, None)]
    ∧ fs w1 = fs w.
Proof.
  intros Hg Hr t0.
  unfold _prepare_trans, bind, asks, log_event, ret. rewrite Hg, Hr.
  simpl. fold t0. eexists _, _, _. split; [reflexivity|].
  destruct t0 as [? ? ? ? ? ? ? ? ? [sf|] ? [dt|] ? ?]; simpl; done.
Qed.


Lemma run_forward_success_witness :
  Os.mtime (fs (run_forward meg_in_ch_types cfg01 "01" None in_files01 study
                  inputs_ready).2)
           "/d/deriv/sub-01/meg/sub-01_task-rest_fwd.fif" = Some 4.
Proof.
  destruct (run_forward_success meg_in_ch_types cfg01 "01" None in_files01
              study inputs_ready
              (out_files_forward cfg01 "01" None)
              (run_forward meg_in_ch_types cfg01 "01" None in_files01 study
                 inputs_ready).2) as (_ & _ & _ & _ & _ & H & _).
  - vm_compute. reflexivity.
  - exact H.
Defined.


Lemma prepare_trans_t1_defaults_witness :
  ∃ t1 kind w1,
    _prepare_trans cfg01 (step_bids_path cfg01 "01" None) study_with_t1
      inputs_ready
    = (Ok (TransHeadMri
             (update (step_bids_path cfg01 "01" None)
                     [(Erun, Some "01"); (Eroot, Some "/d/bids");
                      (Eextension, None)])
             (Some t1) "sub-01" "/d/fs" kind), w1)
    ∧ fpath t1 = "/d/bids/sub-01/ses-01/anat/sub-01_ses-01_T1w".
Proof.
  destruct (prepare_trans_t1_defaults cfg01 (step_bids_path cfg01 "01" None)
              study_with_t1 inputs_ready t1_of_first_session (Some "01") [])
    as (t1 & kind & w1 & E & _).
  - reflexivity.
  - reflexivity.
  - exists t1, kind, w1. split; [exact E|].
    vm_compute in E. injection E as <- _ _. vm_compute. reflexivity.
Defined.

End ForwardStep.

(** ** [_04_make_forward.py]: the order of reads and writes *)

Module ForwardTrace.
Import Bids Forward ForwardScenario MoreScenarios Pre Io StringFacts
  ConfigLoad EpochsRun EpochsTrace ForwardFacts ForwardStages ForwardNames.



Section Step.
Variable meg_in : list string → bool.


End Step.


End ForwardTrace.

(** ** [04-make_epochs.py]: the script as a whole *)

Module ScriptFacts.
Import Config Epochs Scenario MoreScenarios Pre ConfigFacts EpochsRun.

(** X21: the script as a whole, where the directories can be provided.
    A configuration that breaks a rule of the checks ends the script with
    the [ValueError] before any subject is looked at, the two directories
    having been made by then; any other configuration hands over to the
    batch in the world the directory block leaves. *)
Theorem script_after_load ov denied s w :
  dirs_available denied s w →
  fs (load denied s w).2 !! study_path s = Some Dir
  ∧ fs (load denied s w).2 !! subjects_dir s = Some Dir
  ∧ (structurally_inconsistent s →
     ∃ msg, script ov denied s w
            = (Raise (ValueError msg), (load denied s w).2))
  ∧ (¬ structurally_inconsistent s →
     script ov denied s w = batch ov s (load denied s w).2).
Proof.
  intros Ha. destruct (make_dirs_ok denied s w Ha) as (w1 & Hd).
  pose proof (load_world denied s w) as Hw. rewrite Hd in Hw. simpl in Hw.
  rewrite Hw.
  pose proof Hd as Hfs. apply make_dirs_fs in Hfs as (_ & _ & _ & D).
  destruct (D eq_refl) as [D1 D2].
  split; [done|]. split; [done|]. unfold script, load. split.
  - intros Hs. destruct (proj1 (checks_spec s w1) Hs) as [msg E].
    exists msg. apply bind_raise. by rewrite (bind_ok _ _ _ _ _ _ Hd).
  - intros Hs. pose proof (proj2 (checks_spec s w1) Hs) as E.
    rewrite (bind_ok _ _ s w tt w1); [done|].
    by rewrite (bind_ok _ _ _ _ _ _ Hd).
Qed.

Lemma script_after_load_witness :
  ∃ msg, (script true permissive ssp_and_ica recordings_ready).1
         = Raise (ValueError msg).
Proof.
  destruct (script_after_load true permissive ssp_and_ica recordings_ready)
    as (_ & _ & H & _).
  - split; right; split; reflexivity.
  - destruct H as [msg E]; [right; split; reflexivity|].
    exists msg. rewrite E. reflexivity.
Defined.

End ScriptFacts.

(** ** The claims on step execution *)

Module StepFacts.
Import Bids Orchestration OrchestrationFacts Scenario ForwardScenario.
Import EpochsFacts ForwardFacts.
Import MoreScenarios Io EpochsTrace.

Lemma sublist_list_prod {A B} (l1 l2 : list A) (k : list B) :
  l1 `sublist_of` l2 → list_prod l1 k `sublist_of` list_prod l2 k.
Proof.
  induction 1 as [|x l1 l2 _ IH|x l1 l2 _ IH]; simpl.
  - constructor.
  - by apply sublist_app.
  - by apply sublist_inserts_l.
Qed.

Lemma elem_of_list_prod {A B} (l : list A) (k : list B) a b :
  (a, b) ∈ list_prod l k ↔ a ∈ l ∧ b ∈ k.
Proof. rewrite !list_elem_of_In. apply in_prod_iff. Qed.




(** Work that shows in the trace was done. *)
Lemma work_done w w' evs ev :
  trace w' = trace w ++ evs → ev ∈ evs → is_work ev = true →
  no_work w w' = false.
Proof.
  intros T Hev Hw. unfold no_work. rewrite (added_app _ _ _ T).
  destruct (forallb _ evs) eqn:E; [|done].
  rewrite forallb_forall in E.
  specialize (E ev (proj1 (list_elem_of_In _ _) Hev)).
  by rewrite Hw in E.
Qed.

(** C2, counterexample: [run_epochs] takes no freshness decision.  In a
    world where the epochs file of SB01 exists and is newer than the
    recording and the events, the step still reads the recording and
    computes the epochs again, whether [epochs.save] replaces existing
    files or not. *)
Lemma epochs_recomputed_when_current :
  ¬ (∀ s subject w,
       decide (fs w) (epochs_inputs s subject) [Epochs.epochs_fname s subject]
         = CURRENT →
       no_work w (Epochs.run_epochs true subject s w).2 = true)
  ∧ ¬ (∀ s subject w,
         decide (fs w) (epochs_inputs s subject)
           [Epochs.epochs_fname s subject] = CURRENT →
         no_work w (Epochs.run_epochs false subject s w).2 = true).
Proof.
  split; intros H; specialize (H Config.default "SB01" epochs_fresh);
    vm_compute in H; specialize (H eq_refl); discriminate.
Qed.

(** C2, as amended: the cache decision is CURRENT iff every declared
    output exists and is not older than every declared input that exists,
    and STALE otherwise; the forward step, run through [failsafe_run], is
    skipped on CURRENT: a SKIPPED record and an untouched world.  The
    epoching step takes no such decision: every call of [run_epochs] that
    returns has read its inputs (the recording and the events file of
    every run, of which there is at least one), computed the epochs and
    written the epochs file, stamped with the time of the call. *)
Theorem freshness_decision bem_cond meg_in :
  (∀ f inputs outputs,
     decide f inputs outputs = CURRENT ↔
     ∀ o, o ∈ outputs →
       ∃ t_out, Os.mtime f o = Some t_out ∧
         ∀ i, i ∈ inputs → ∀ t_in, Os.mtime f i = Some t_in → t_in ≤ t_out)
  ∧ (∀ f inputs outputs,
       decide f inputs outputs ≠ CURRENT → decide f inputs outputs = STALE)
  ∧ (∀ cfg subject session g w in_files,
       Forward.get_input_fnames_forward bem_cond cfg subject session g w
         = (Ok in_files, w) →
       decide (fs w) (locations in_files)
         (locations (Forward.out_files_forward cfg subject session))
         = CURRENT →
       Forward.run_forward_failsafe bem_cond meg_in cfg subject session g w
         = (Ok (skipped subject session), w))
  ∧ (∀ ov s subject w w1,
       Epochs.run_epochs ov subject s w = (Ok tt, w1) →
       no_work w w1 = false
       ∧ fs w1 = <[Epochs.epochs_fname s subject := File (clock w) true]> (fs w)
       ∧ ∃ evs, trace w1 = trace w ++ evs
                ∧ reads evs = epochs_inputs s subject
                ∧ epochs_inputs s subject ≠ []
                ∧ EvCompute "Epochs" [Config.epoch_params s] ∈ evs
                ∧ EvWrite "epochs" (Epochs.epochs_fname s subject) ∈ evs).
Proof.
  split; [|split; [|split]].
  - apply decide_spec.
  - intros f i o. destruct (decide_cases f i o); [done|auto].
  - intros cfg subject session g w in_files Hr Hd.
    rewrite (run_forward_failsafe_cases _ _ _ _ _ _ _ _ Hr), Hd. done.
  - intros ov s subject w w1 H.
    destruct (run_epochs_ok _ _ _ _ _ H) as (F & _ & evs & T & Ec & Ew).
    destruct (run_epochs_reads _ _ _ _ _ _ H (or_introl eq_refl))
      as [R Hne].
    rewrite (added_app _ _ _ T) in R.
    split; [by eapply work_done|]. split; [done|]. exists evs. done.
Qed.

Lemma freshness_decision_witness :
  Forward.run_forward_failsafe bem_conductivity meg_in_ch_types cfg01 "01"
    None study outputs_ready
    = (Ok (skipped "01" None), outputs_ready)
  ∧ no_work epochs_fresh
      (Epochs.run_epochs true "SB01" Config.default epochs_fresh).2 = false.
Proof.
  destruct (freshness_decision bem_conductivity meg_in_ch_types)
    as (_ & _ & Hskip & Hep).
  split.
  - apply (Hskip cfg01 "01" None study outputs_ready in_files01).
    + vm_compute. reflexivity.
    + vm_compute. reflexivity.
  - destruct (Hep true Config.default "SB01" epochs_fresh
                (Epochs.run_epochs true "SB01" Config.default epochs_fresh).2)
      as [N _].
    + vm_compute. reflexivity.
    + exact N.
Defined.

(** C3, counterexample: run twice in a row on unchanged recordings,
    [run_epochs] is not skipped the second time: it reads the recording of
    SB01 and computes the epochs again, whether [epochs.save] replaces
    existing files or not. *)
Lemma epochs_rerun_recomputes :
  ¬ (∀ s subject w w1,
       Epochs.run_epochs true subject s w = (Ok tt, w1) →
       no_work w1 (Epochs.run_epochs true subject s w1).2 = true)
  ∧ ¬ (∀ s subject w w1,
         Epochs.run_epochs false subject s w = (Ok tt, w1) →
         no_work w1 (Epochs.run_epochs false subject s w1).2 = true).
Proof.
  split; intros H.
  - specialize (H Config.default "SB01" recordings_ready
                  (Epochs.run_epochs true "SB01" Config.default
                     recordings_ready).2).
    vm_compute in H. specialize (H eq_refl). discriminate.
  - specialize (H Config.default "SB01" recordings_ready
                  (Epochs.run_epochs false "SB01" Config.default
                     recordings_ready).2).
    vm_compute in H. specialize (H eq_refl). discriminate.
Qed.

Lemma inputs_ready_wf : world_wf inputs_ready.
Proof.
  intros p t. unfold Os.mtime, inputs_ready. simpl.
  rewrite !lookup_insert. repeat case_decide; rewrite ?lookup_empty;
    intros [= <-]; lia.
Qed.

Lemma in_files01_not_outputs i o :
  i ∈ locations in_files01 →
  o ∈ locations (Forward.out_files_forward cfg01 "01" None) → i ≠ o.
Proof.
  assert (locations in_files01
          = ["/d/fs/sub-01/bem/sub-01-oct6-src.fif";
             "/d/deriv/sub-01/meg/sub-01_task-rest_ave.fif";
             "/d/fs/sub-01/bem/sub-01-5120-bem-sol.fif"]) as ->
    by (vm_compute; reflexivity).
  assert (locations (Forward.out_files_forward cfg01 "01" None)
          = ["/d/deriv/sub-01/meg/sub-01_task-rest_fwd.fif";
             "/d/deriv/sub-01/meg/sub-01_task-rest_trans.fif"]) as ->
    by (vm_compute; reflexivity).
  rewrite !elem_of_cons, !elem_of_nil. intros Hi Ho ->.
  destruct Hi as [->|[->|[->|[]]]]; destruct Ho as [E|[E|[]]]; discriminate.
Qed.

Lemma fwd_on_disk_wf : world_wf fwd_on_disk.
Proof.
  intros p t. unfold Os.mtime, fwd_on_disk. simpl.
  rewrite !lookup_insert. repeat case_decide; rewrite ?lookup_empty;
    intros [= <-]; lia.
Qed.

(** C3, the first hypothesis of the forward half is needed: where an input
    carries a modification time in the future, the outputs a run writes
    are older than that input, and the next run is not skipped, although
    no input is among the outputs. *)
Lemma forward_rerun_future_input :
  ¬ (∀ cfg subject session g w in_files r w1,
       Forward.get_input_fnames_forward bem_conductivity cfg subject session
         g w = (Ok in_files, w) →
       (∀ i o, i ∈ locations in_files →
               o ∈ locations (Forward.out_files_forward cfg subject session) →
               i ≠ o) →
       Forward.run_forward_failsafe bem_conductivity meg_in_ch_types cfg
         subject session g w = (Ok r, w1) →
       status r = SUCCESS →
       Forward.run_forward_failsafe bem_conductivity meg_in_ch_types cfg
         subject session g w1 = (Ok (skipped subject session), w1)).
Proof.
  intros H.
  destruct (Forward.run_forward_failsafe bem_conductivity meg_in_ch_types
              cfg01 "01" None study future_input) as [[r|e] w1] eqn:E.
  - specialize (H cfg01 "01" None study future_input in_files01 r w1).
    pose proof E as Er. pose proof E as E0.
    apply (f_equal (fun x => from_option status FAILED
                               match x.1 with
                               | Ok r => Some r
                               | Raise _ => None
                               end)) in Er.
    apply (f_equal snd) in E. simpl in E. subst w1.
    vm_compute in Er.
    assert (Forward.get_input_fnames_forward bem_conductivity cfg01 "01"
              None study future_input = (Ok in_files01, future_input)) as Hr
      by (vm_compute; reflexivity).
    specialize (H Hr in_files01_not_outputs E0 (eq_sym Er)).
    apply (f_equal (fun x => from_option status FAILED
                               match x.1 with
                               | Ok r => Some r
                               | Raise _ => None
                               end)) in H.
    vm_compute in H. discriminate H.
  - apply (f_equal (fun x => is_ok x.1)) in E. vm_compute in E.
    discriminate E.
Qed.

(** C3, the second hypothesis of the forward half is needed: where
    [source_info_path_update] makes the forward solution its own info
    file, a run replaces that input after writing the trans file, which is
    then older than an input, and the next run is not skipped, although no
    modification time lies in the future. *)
Lemma forward_rerun_input_is_output :
  ¬ (∀ cfg subject session g w in_files r w1,
       Forward.get_input_fnames_forward bem_conductivity cfg subject session
         g w = (Ok in_files, w) →
       world_wf w →
       Forward.run_forward_failsafe bem_conductivity meg_in_ch_types cfg
         subject session g w = (Ok r, w1) →
       status r = SUCCESS →
       Forward.run_forward_failsafe bem_conductivity meg_in_ch_types cfg
         subject session g w1 = (Ok (skipped subject session), w1)).
Proof.
  intros H.
  destruct (Forward.run_forward_failsafe bem_conductivity meg_in_ch_types
              cfg_info_is_fwd "01" None study fwd_on_disk)
    as [[r|e] w1] eqn:E.
  - specialize (H cfg_info_is_fwd "01" None study fwd_on_disk
                  in_files_info_is_fwd r w1).
    pose proof E as Er. pose proof E as E0.
    apply (f_equal (fun x => from_option status FAILED
                               match x.1 with
                               | Ok r => Some r
                               | Raise _ => None
                               end)) in Er.
    apply (f_equal snd) in E. simpl in E. subst w1.
    vm_compute in Er.
    assert (Forward.get_input_fnames_forward bem_conductivity
              cfg_info_is_fwd "01" None study fwd_on_disk
            = (Ok in_files_info_is_fwd, fwd_on_disk)) as Hr
      by (vm_compute; reflexivity).
    specialize (H Hr fwd_on_disk_wf E0 (eq_sym Er)).
    apply (f_equal (fun x => from_option status FAILED
                               match x.1 with
                               | Ok r => Some r
                               | Raise _ => None
                               end)) in H.
    vm_compute in H. discriminate H.
  - apply (f_equal (fun x => is_ok x.1)) in E. vm_compute in E.
    discriminate E.
Qed.

(** C3, as amended: for the forward step, run through [failsafe_run] in a
    world whose modification times are not in the future and with no
    declared input among the declared outputs, a unit that came out
    SUCCESS comes out SKIPPED when the step is run again at once, and the
    second run leaves the world as it is; neither condition can be
    dropped ([forward_rerun_future_input],
    [forward_rerun_input_is_output]).  The epoching step is not skipped:
    after a run of [run_epochs] that returned, the next run reads the
    recording and the events file of every run and computes the epochs
    again; it then writes the epochs file once more, with a later
    modification time, or, where [epochs.save] refuses existing files,
    raises on the file of the first run. *)
Theorem rerun_outcome bem_cond meg_in :
  (∀ cfg subject session g w in_files r w1,
     Forward.get_input_fnames_forward bem_cond cfg subject session g w
       = (Ok in_files, w) →
     world_wf w →
     (∀ i o, i ∈ locations in_files →
             o ∈ locations (Forward.out_files_forward cfg subject session) →
             i ≠ o) →
     Forward.run_forward_failsafe bem_cond meg_in cfg subject session g w
       = (Ok r, w1) →
     status r = SUCCESS →
     Forward.run_forward_failsafe bem_cond meg_in cfg subject session g w1
       = (Ok (skipped subject session), w1))
  ∧ (∀ s subject w w1,
       Epochs.run_epochs true subject s w = (Ok tt, w1) →
       ∃ w2, Epochs.run_epochs true subject s w1 = (Ok tt, w2)
         ∧ no_work w1 w2 = false
         ∧ Os.mtime (fs w1) (Epochs.epochs_fname s subject) = Some (clock w)
         ∧ Os.mtime (fs w2) (Epochs.epochs_fname s subject)
           = Some (S (clock w))
         ∧ reads (added w1 w2) = epochs_inputs s subject
         ∧ epochs_inputs s subject ≠ []
         ∧ EvCompute "Epochs" [Config.epoch_params s] ∈ added w1 w2
         ∧ EvWrite "epochs" (Epochs.epochs_fname s subject) ∈ added w1 w2)
  ∧ (∀ s subject w w1,
       Epochs.run_epochs false subject s w = (Ok tt, w1) →
       ∃ w2, Epochs.run_epochs false subject s w1
             = (Raise (FileExistsError (Epochs.epochs_fname s subject)), w2)
         ∧ no_work w1 w2 = false
         ∧ fs w2 = fs w1
         ∧ reads (added w1 w2) = epochs_inputs s subject
         ∧ epochs_inputs s subject ≠ []
         ∧ EvCompute "Epochs" [Config.epoch_params s] ∈ added w1 w2).
Proof.
  split; [|split].
  - intros. eapply forward_rerun_skipped; eauto.
  - intros s subject w w1 H.
    destruct (run_epochs_again _ _ _ _ H)
      as (w2 & H2 & M1 & M2 & evs & T & Ec & Ew).
    destruct (run_epochs_reads _ _ _ _ _ _ H2 (or_introl eq_refl))
      as [R Hne].
    exists w2. rewrite (added_app _ _ _ T) in *.
    repeat split; try done. by eapply work_done.
  - intros s subject w w1 H.
    destruct (run_epochs_again_refused _ _ _ _ H)
      as (w2 & H2 & F & evs & T & Ec).
    destruct (run_epochs_reads _ _ _ _ _ _ H2 (or_intror (ex_intro _ _ eq_refl)))
      as [R Hne].
    exists w2. rewrite (added_app _ _ _ T) in *.
    repeat split; try done. by eapply work_done.
Qed.

Lemma rerun_outcome_witness :
  Forward.run_forward_failsafe bem_conductivity meg_in_ch_types cfg01 "01"
    None study
    (Forward.run_forward_failsafe bem_conductivity meg_in_ch_types cfg01
       "01" None study inputs_ready).2
  = (Ok (skipped "01" None),
     (Forward.run_forward_failsafe bem_conductivity meg_in_ch_types cfg01
        "01" None study inputs_ready).2)
  ∧ (∃ w2,
      Epochs.run_epochs true "SB01" Config.default
        (Epochs.run_epochs true "SB01" Config.default recordings_ready).2
      = (Ok tt, w2)
      ∧ Os.mtime (fs w2) "data/MEG/SB01/SB01_Localizer-epo.fif" = Some 6)
  ∧ (∃ w2,
      Epochs.run_epochs false "SB01" Config.default
        (Epochs.run_epochs false "SB01" Config.default recordings_ready).2
      = (Raise (FileExistsError "data/MEG/SB01/SB01_Localizer-epo.fif"), w2)).
Proof.
  destruct (rerun_outcome bem_conductivity meg_in_ch_types)
    as (Hf & He & Hr).
  split; [|split].
  - destruct (Forward.run_forward_failsafe bem_conductivity meg_in_ch_types
                cfg01 "01" None study inputs_ready) as [[r|e] w1] eqn:E;
      simpl.
    + apply (Hf cfg01 "01" None study inputs_ready in_files01 r w1).
      * vm_compute. reflexivity.
      * apply inputs_ready_wf.
      * apply in_files01_not_outputs.
      * exact E.
      * apply (f_equal (fun x => from_option status FAILED
                                   match x.1 with
                                   | Ok r => Some r
                                   | Raise _ => None
                                   end)) in E.
        vm_compute in E. symmetry. exact E.
    + apply (f_equal (fun x => is_ok x.1)) in E. vm_compute in E.
      discriminate.
  - destruct (He Config.default "SB01" recordings_ready
                (Epochs.run_epochs true "SB01" Config.default
                   recordings_ready).2)
      as (w2 & E2 & _ & _ & M2 & _).
    + vm_compute. reflexivity.
    + exists w2. split; [exact E2|]. exact M2.
  - destruct (Hr Config.default "SB01" recordings_ready
                (Epochs.run_epochs false "SB01" Config.default
                   recordings_ready).2)
      as (w2 & E2 & _).
    + vm_compute. reflexivity.
    + exists w2. exact E2.
Defined.

(** C4, counterexample: the epoching script iterates over
    [config.subjects_list] and never looks at [config.exclude_subjects]:
    [run_epochs] is called for SB02 although it is excluded, whether
    [epochs.save] replaces existing files or not. *)
Lemma epochs_processes_excluded_subject :
  ¬ (∀ s w x, x ∈ Config.exclude_subjects s →
              EvPrint ("Processing subject: " +:+ x)
                ∉ trace (Epochs.batch true s w).2)
  ∧ ¬ (∀ s w x, x ∈ Config.exclude_subjects s →
                EvPrint ("Processing subject: " +:+ x)
                  ∉ trace (Epochs.batch false s w).2).
Proof.
  split; intros H; apply (H two_subjects recordings_ready "SB02");
    apply (bool_decide_unpack _); vm_compute; exact I.
Qed.

(** C4, as amended: the forward step enumerates
    [itertools.product(get_subjects(), get_sessions())]: exactly the pairs
    of a configured subject that is not excluded and a configured session,
    subject-major, in roster order with the excluded subjects left out,
    and [main] returns no record for an excluded subject.  The epoching
    step enumerates [config.subjects_list] as it stands, one unit per
    subject: it has no sessions and does not consult
    [config.exclude_subjects]. *)
Theorem unit_enumeration bem_cond meg_in :
  (∀ g w, Forward.units g w
          = (Ok (list_prod (PipelineConfig.get_subjects g)
                           (PipelineConfig.get_sessions g)), w))
  ∧ (∀ g a b,
       (a, b) ∈ list_prod (PipelineConfig.get_subjects g)
                          (PipelineConfig.get_sessions g)
       ↔ a ∈ PipelineConfig.subjects g
         ∧ (a ∉ PipelineConfig.exclude_subjects g)
         ∧ b ∈ PipelineConfig.get_sessions g)
  ∧ (∀ g, list_prod (PipelineConfig.get_subjects g)
                    (PipelineConfig.get_sessions g)
          `sublist_of` list_prod (PipelineConfig.subjects g)
                                 (PipelineConfig.get_sessions g))
  ∧ (∀ g w logs w',
       Forward.main bem_cond meg_in g w = (Ok logs, w') →
       ∀ r, r ∈ logs →
            unit_subject (unit r) ∉ PipelineConfig.exclude_subjects g)
  ∧ (∀ s w, Epochs.units s w = (Ok (Config.subjects_list s), w)).
Proof.
  split; [|split; [|split; [|split]]].
  - reflexivity.
  - intros g a b. rewrite elem_of_list_prod.
    unfold PipelineConfig.get_subjects. rewrite list_elem_of_filter.
    tauto.
  - intros g. apply sublist_list_prod, sublist_filter.
  - intros g w logs w' E r Hr.
    destruct (main_total bem_cond meg_in g w) as (logs' & w'' & E' & U).
    rewrite E in E'. injection E' as <- <-.
    destruct (PipelineConfig.run_source_estimation g) eqn:Hrse.
    + assert (unit r ∈ unit <$> logs) as Hu by (by apply list_elem_of_fmap_2).
      rewrite (U eq_refl) in Hu.
      apply list_elem_of_fmap in Hu as ([a b] & -> & Hab). simpl.
      apply elem_of_list_prod in Hab as [Ha _].
      unfold PipelineConfig.get_subjects in Ha.
      by apply list_elem_of_filter in Ha as [? _].
    + unfold Forward.main, asks, bind in E. rewrite Hrse in E. simpl in E.
      injection E as <- <-. by apply elem_of_nil in Hr.
  - reflexivity.
Qed.

Lemma unit_enumeration_witness :
  (("01", None) ∈ list_prod (PipelineConfig.get_subjects study)
                            (PipelineConfig.get_sessions study))
  ∧ ∀ r, r ∈ match (Forward.main bem_conductivity meg_in_ch_types study
                      inputs_ready).1 with
             | Ok logs => logs
             | Raise _ => []
             end →
         unit_subject (unit r) ∉ ["02"].
Proof.
  destruct (unit_enumeration bem_conductivity meg_in_ch_types)
    as (_ & Hin & _ & Hlogs & _).
  split.
  - apply Hin. repeat split; apply (bool_decide_unpack _); vm_compute;
      exact I.
  - destruct (main_total bem_conductivity meg_in_ch_types study inputs_ready)
      as (logs & w' & E & _).
    rewrite E. simpl. apply (Hlogs study inputs_ready logs w' E).
Defined.

End StepFacts.
